(** * A shallow embedding of the phonebook manager ([src/main.py]).

    Python text is modelled as a list of Unicode code points ([pystr]).
    Python dictionaries are modelled as association lists that keep the
    insertion order of the keys (CPython dicts do), with Python's
    [d[k] = v] semantics: an existing key keeps its position and gets the
    new value, a new key is appended at the end. *)

From Stdlib Require Import List String Ascii NArith ZArith Lia Bool.
Import ListNotations.

Open Scope list_scope.

(** ** Text *)

Definition pystr := list N.

(** Decoding of a UTF-8 encoded Rocq string literal into code points
    (1, 2 and 3 byte sequences); used to write the source's literals. *)
Fixpoint utf8 (s : string) : pystr :=
  match s with
  | EmptyString => []
  | String a s1 =>
      let b0 := N_of_ascii a in
      if (b0 <? 128)%N then b0 :: utf8 s1
      else if (b0 <? 224)%N then
        match s1 with
        | String a1 s2 => ((b0 - 192) * 64 + (N_of_ascii a1 - 128))%N :: utf8 s2
        | EmptyString => []
        end
      else
        match s1 with
        | String a1 (String a2 s3) =>
            (((b0 - 224) * 64 + (N_of_ascii a1 - 128)) * 64
               + (N_of_ascii a2 - 128))%N :: utf8 s3
        | _ => []
        end
  end.

Definition LF : N := 10%N.
Definition CR : N := 13%N.
Definition DQUOTE : N := 34%N.
Definition COMMA : N := 44%N.

Fixpoint str_eqb (a b : pystr) : bool :=
  match a, b with
  | [], [] => true
  | x :: a', y :: b' => N.eqb x y && str_eqb a' b'
  | _, _ => false
  end.

(** [str.isspace] on one code point: bidirectional class WS, B or S, or
    general category Zs. *)
Definition py_isspace (c : N) : bool :=
  (((9 <=? c) && (c <=? 13)) || ((28 <=? c) && (c <=? 32)) ||
  (c =? 133) || (c =? 160) || (c =? 5760) ||
  ((8192 <=? c) && (c <=? 8202)) || (c =? 8232) || (c =? 8233) ||
  (c =? 8239) || (c =? 8287) || (c =? 12288))%N.

Fixpoint lstrip (s : pystr) : pystr :=
  match s with
  | [] => []
  | c :: s' => if py_isspace c then lstrip s' else s
  end.

Definition rstrip (s : pystr) : pystr := rev (lstrip (rev s)).

(** [str.strip()] with no argument. *)
Definition strip (s : pystr) : pystr := rstrip (lstrip s).

(** Python's truth value of a string or of a dict: non-empty. *)
Definition is_empty {A} (l : list A) : bool :=
  match l with [] => true | _ => false end.

(** ** Python values and dictionaries *)

(** The values a phonebook entry can hold: strings (input and [csv]
    reads), the [int] written by [save_phonebook] into ['ID'], and the
    [None] / list values [csv.DictReader] produces for short and long rows. *)
Inductive pyval : Type :=
| VStr (s : pystr)
| VInt (z : Z)
| VNone
| VList (l : list pystr).

(** Keys: strings, or [None] (the [restkey] of [csv.DictReader]). *)
Definition pykey := option pystr.

Definition key_eqb (a b : pykey) : bool :=
  match a, b with
  | Some x, Some y => str_eqb x y
  | None, None => true
  | _, _ => false
  end.

Definition pydict := list (pykey * pyval).

Fixpoint dict_get (d : pydict) (k : pykey) : option pyval :=
  match d with
  | [] => None
  | (k', v) :: d' => if key_eqb k k' then Some v else dict_get d' k
  end.

(** [d[k] = v]. *)
Fixpoint dict_set (d : pydict) (k : pykey) (v : pyval) : pydict :=
  match d with
  | [] => [(k, v)]
  | (k', v') :: d' =>
      if key_eqb k k' then (k', v) :: d' else (k', v') :: dict_set d' k v
  end.

(** [d.update(e)]. *)
Definition dict_update (d e : pydict) : pydict :=
  fold_left (fun acc kv => dict_set acc (fst kv) (snd kv)) e d.

Definition dict_keys (d : pydict) : list pykey := map fst d.
Definition dict_values (d : pydict) : list pyval := map snd d.

(** [lst[i] = x] for an index known to be in range. *)
Fixpoint list_set {A} (l : list A) (i : nat) (x : A) : list A :=
  match l, i with
  | [], _ => []
  | _ :: l', O => x :: l'
  | y :: l', S i' => y :: list_set l' i' x
  end.

(** ** Exceptions *)

Inductive csv_error : Type :=
| FieldLimitExceeded      (* "field larger than field limit (131072)" *)
| NewlineInUnquotedField. (* "new-line character seen in unquoted field" *)

Inductive pyerr : Type :=
| ValueError (msg : pystr)   (* raised by validate_string_input *)
| DictWriterExtraFields      (* ValueError of csv.DictWriter: "dict contains fields not in fieldnames" *)
| AttributeError             (* e.g. [int] has no attribute [lower] *)
| CsvError (e : csv_error)   (* _csv.Error *)
| UnicodeEncodeError         (* a ValueError: the strict utf-8 codec of the file meets a lone surrogate *)
| EmptySearchTerm.           (* search_entries: the branch that prints an error and prompts again *)

Inductive result (A : Type) : Type :=
| Ok (a : A)
| Err (e : pyerr).
Arguments Ok {A} a.
Arguments Err {A} e.

(** ** The validators *)

(** [validate_string_input(input_str, field_name)]. *)
Definition validate_string_input (input_str field_name : pystr) : result pystr :=
  if negb (is_empty (strip input_str)) then Ok (strip input_str)
  else Err (ValueError (field_name ++ utf8 " не может быть пустым.")).

(** Unicode general category Nd (Unicode 15.0), which is what [\d]
    matches in a [str] pattern of Python's [re]: 63 blocks of ten digits
    (given by their zero) and the 50 mathematical digits. *)
Definition nd_zeros : list N :=
  [0x30; 0x660; 0x6F0; 0x7C0; 0x966; 0x9E6; 0xA66; 0xAE6; 0xB66; 0xBE6;
   0xC66; 0xCE6; 0xD66; 0xDE6; 0xE50; 0xED0; 0xF20; 0x1040; 0x1090; 0x17E0;
   0x1810; 0x1946; 0x19D0; 0x1A80; 0x1A90; 0x1B50; 0x1BB0; 0x1C40; 0x1C50;
   0xA620; 0xA8D0; 0xA900; 0xA9D0; 0xA9F0; 0xAA50; 0xABF0; 0xFF10; 0x104A0;
   0x10D30; 0x11066; 0x110F0; 0x11136; 0x111D0; 0x112F0; 0x11450; 0x114D0;
   0x11650; 0x116C0; 0x11730; 0x118E0; 0x11950; 0x11C50; 0x11D50; 0x11DA0;
   0x11F50; 0x16A60; 0x16AC0; 0x16B50; 0x1E140; 0x1E2F0; 0x1E4F0; 0x1E950;
   0x1FBF0]%N.

Definition is_decimal (c : N) : bool :=
  existsb (fun z => (z <=? c) && (c <? z + 10))%N nd_zeros
  || ((0x1D7CE <=? c) && (c <=? 0x1D7FF))%N.

(** The fragment of Python's [re] the phone pattern uses: [^], [$]
    (without MULTILINE: end of the string, or just before a newline that
    ends it), a literal character, [\d] and [{n}] repetition. Every item
    consumes a fixed number of characters, so matching needs no
    backtracking. The matcher returns the position reached and the rest of
    the input. *)
Inductive rx : Type :=
| RBol
| REol
| RLit (c : N)
| RDigit
| RRep (n : nat) (r : rx).

Fixpoint rx_match (r : rx) (pos : nat) (s : pystr) : option (nat * pystr) :=
  match r with
  | RBol => if Nat.eqb pos 0 then Some (pos, s) else None
  | REol =>
      match s with
      | [] => Some (pos, s)
      | [c] => if N.eqb c LF then Some (pos, s) else None
      | _ => None
      end
  | RLit c =>
      match s with
      | d :: s' => if N.eqb d c then Some (S pos, s') else None
      | [] => None
      end
  | RDigit =>
      match s with
      | d :: s' => if is_decimal d then Some (S pos, s') else None
      | [] => None
      end
  | RRep n r' =>
      (fix go (n : nat) (pos : nat) (s : pystr) : option (nat * pystr) :=
         match n with
         | O => Some (pos, s)
         | S n' =>
             match rx_match r' pos s with
             | Some (pos', s') => go n' pos' s'
             | None => None
             end
         end) n pos s
  end.

Fixpoint seq_match (rs : list rx) (pos : nat) (s : pystr) : option (nat * pystr) :=
  match rs with
  | [] => Some (pos, s)
  | r :: rs' =>
      match rx_match r pos s with
      | Some (pos', s') => seq_match rs' pos' s'
      | None => None
      end
  end.

(** [re.match(pattern, s)]: anchored at the start, not at the end. *)
Definition re_match (pat : list rx) (s : pystr) : bool :=
  match seq_match pat 0 s with Some _ => true | None => false end.

Definition lit (s : string) : list rx := map RLit (utf8 s).

(** [r'^\+7 \(\d{3}\) \d{3}-\d{2}-\d{2}$'] *)
Definition phone_pattern : list rx :=
  [RBol] ++ lit "+7 (" ++ [RRep 3 RDigit] ++ lit ") " ++ [RRep 3 RDigit]
  ++ lit "-" ++ [RRep 2 RDigit] ++ lit "-" ++ [RRep 2 RDigit] ++ [REol].

(** [validate_phone_number(phone_number)]. *)
Definition validate_phone_number (phone_number : pystr) : bool :=
  re_match phone_pattern phone_number.

(** The claim's reading of "fully matches": the whole string is matched,
    as by [re.fullmatch(pattern, s)]. *)
Definition phone_fullmatch (s : pystr) : bool :=
  match seq_match phone_pattern 0 s with
  | Some (_, []) => true
  | _ => false
  end.

(** ** [str(int)] *)

(** Decimal digits of a natural number; [fuel] bounds the recursion and
    is always taken larger than the number. *)
Fixpoint digits_of (fuel : nat) (n : N) : pystr :=
  match fuel with
  | O => []
  | S f =>
      if (n <? 10)%N then [(48 + n)%N]
      else digits_of f (n / 10)%N ++ [(48 + n mod 10)%N]
  end.

Definition dec_N (n : N) : pystr := digits_of (S (N.to_nat n)) n.

Definition py_str_int (z : Z) : pystr :=
  if (z <? 0)%Z then 45%N :: dec_N (Z.to_N (- z)) else dec_N (Z.to_N z).

(** ** The [csv] module, excel dialect *)

(** The header names of the phonebook file. *)
Definition k_ID : pystr := utf8 "ID".
Definition k_LastName : pystr := utf8 "Фамилия".
Definition k_FirstName : pystr := utf8 "Имя".
Definition k_Patronymic : pystr := utf8 "Отчество".
Definition k_Organization : pystr := utf8 "Организация".
Definition k_WorkPhone : pystr := utf8 "Телефон рабочий".
Definition k_PersonalPhone : pystr := utf8 "Телефон личный".

Definition fieldnames : list pystr :=
  [k_ID; k_LastName; k_FirstName; k_Patronymic; k_Organization;
   k_WorkPhone; k_PersonalPhone].

(** *** Writer ([QUOTE_MINIMAL], [lineterminator='\r\n']) *)

Definition is_nl (c : N) : bool := N.eqb c LF || N.eqb c CR.

Definition needs_quotes (f : pystr) : bool :=
  existsb (fun c => N.eqb c COMMA || N.eqb c DQUOTE || is_nl c) f.

Definition double_quotes (f : pystr) : pystr :=
  flat_map (fun c => if N.eqb c DQUOTE then [DQUOTE; DQUOTE] else [c]) f.

Definition csv_field (f : pystr) : pystr :=
  if needs_quotes f then DQUOTE :: double_quotes f ++ [DQUOTE] else f.

Fixpoint join_fields (fs : list pystr) : pystr :=
  match fs with
  | [] => []
  | [f] => csv_field f
  | f :: fs' => csv_field f ++ COMMA :: join_fields fs'
  end.

(** [writer.writerow(fields)]: a row made of one empty field is written
    as [""] so that it is not read back as an empty line. *)
Definition csv_writerow (fs : list pystr) : pystr :=
  match fs with
  | [[]] => [DQUOTE; DQUOTE; CR; LF]
  | _ => join_fields fs ++ [CR; LF]
  end.

(** How the writer turns a value into text: [None] as the empty string,
    [int] by [str]. Lists never reach the writer: they only sit under the
    [None] key, which [dict_to_list] rejects. *)
Definition csv_str_of (v : pyval) : pystr :=
  match v with
  | VStr s => s
  | VInt z => py_str_int z
  | VNone => []
  | VList _ => []
  end.

Definition key_in (k : pykey) (names : list pystr) : bool :=
  existsb (fun n => key_eqb k (Some n)) names.

(** [DictWriter._dict_to_list] with [restval=""], [extrasaction='raise']. *)
Definition dict_to_list (names : list pystr) (d : pydict) : result (list pystr) :=
  if existsb (fun k => negb (key_in k names)) (dict_keys d) then Err DictWriterExtraFields
  else Ok (map (fun n => match dict_get d (Some n) with
                         | Some v => csv_str_of v
                         | None => []
                         end) names).

(** *** Reader *)

(** The file is read line by line ([newline='']: a line ends after
    ['\n'], ['\r'] or ['\r\n']); the C parser is fed every character of a
    line and then an end-of-line marker. [tok] produces that stream. *)
Inductive token : Type :=
| Chr (c : N)
| EOL.

Fixpoint tok (s : pystr) : list token :=
  match s with
  | [] => []
  | c :: s' =>
      if N.eqb c LF then Chr c :: EOL :: tok s'
      else if N.eqb c CR then
        match s' with
        | d :: s'' => if N.eqb d LF then Chr c :: Chr d :: EOL :: tok s''
                      else Chr c :: EOL :: tok s'
        | [] => [Chr c; EOL]
        end
      else Chr c :: tok s'
  end.

(** A last line without a terminator is a line too. *)
Definition file_tokens (s : pystr) : list token :=
  match s with
  | [] => []
  | _ :: _ => if is_nl (last s 0%N) then tok s else tok s ++ [EOL]
  end.

Inductive pstate : Type :=
| START_RECORD
| START_FIELD
| IN_FIELD
| IN_QUOTED_FIELD
| QUOTE_IN_QUOTED_FIELD
| EAT_CRNL.

(** The parser of [_csv.c]: state, fields of the current record
    (reversed), current field (reversed) and its length. *)
Record parser : Type := mkParser {
  pst : pstate;
  pfields : list pystr;
  pfield : pystr;
  pflen : N
}.

Definition parser_init : parser := mkParser START_RECORD [] [] 0%N.

(** [csv.field_size_limit()] by default. *)
Definition field_limit : N := 131072%N.

Definition set_state (s : pstate) (p : parser) : parser :=
  mkParser s (pfields p) (pfield p) (pflen p).

Definition add_char (c : N) (s : pstate) (p : parser) : result parser :=
  if (field_limit <=? pflen p)%N then Err (CsvError FieldLimitExceeded)
  else Ok (mkParser s (pfields p) (c :: pfield p) (pflen p + 1)%N).

Definition save_field (s : pstate) (p : parser) : parser :=
  mkParser s (rev (pfield p) :: pfields p) [] 0%N.

(** [parse_process_char] for the excel dialect (no escapechar,
    [doublequote=True], [skipinitialspace=False], [strict=False]). *)
Definition start_field (p : parser) (t : token) : result parser :=
  match t with
  | EOL => Ok (save_field START_RECORD p)
  | Chr c =>
      if is_nl c then Ok (save_field EAT_CRNL p)
      else if N.eqb c DQUOTE then Ok (set_state IN_QUOTED_FIELD p)
      else if N.eqb c COMMA then Ok (save_field START_FIELD p)
      else add_char c IN_FIELD p
  end.

Definition step (p : parser) (t : token) : result parser :=
  match pst p with
  | START_RECORD =>
      match t with
      | EOL => Ok p
      | Chr c => if is_nl c then Ok (set_state EAT_CRNL p) else start_field p t
      end
  | START_FIELD => start_field p t
  | IN_FIELD =>
      match t with
      | EOL => Ok (save_field START_RECORD p)
      | Chr c =>
          if is_nl c then Ok (save_field EAT_CRNL p)
          else if N.eqb c COMMA then Ok (save_field START_FIELD p)
          else add_char c IN_FIELD p
      end
  | IN_QUOTED_FIELD =>
      match t with
      | EOL => Ok p
      | Chr c =>
          if N.eqb c DQUOTE then Ok (set_state QUOTE_IN_QUOTED_FIELD p)
          else add_char c IN_QUOTED_FIELD p
      end
  | QUOTE_IN_QUOTED_FIELD =>
      match t with
      | EOL => Ok (save_field START_RECORD p)
      | Chr c =>
          if N.eqb c DQUOTE then add_char c IN_QUOTED_FIELD p
          else if N.eqb c COMMA then Ok (save_field START_FIELD p)
          else if is_nl c then Ok (save_field EAT_CRNL p)
          else add_char c IN_FIELD p
      end
  | EAT_CRNL =>
      match t with
      | EOL => Ok (set_state START_RECORD p)
      | Chr c => if is_nl c then Ok p else Err (CsvError NewlineInUnquotedField)
      end
  end.

Definition cons_ok {A} (x : A) (r : result (list A)) : result (list A) :=
  match r with Ok l => Ok (x :: l) | Err e => Err e end.

(** [Reader.__next__] iterated to the end: a record is returned when a
    line ends in [START_RECORD]; at end of input a pending field or an open
    quoted field is returned as a last record. *)
Fixpoint read_tokens (ts : list token) (p : parser) : result (list (list pystr)) :=
  match ts with
  | [] =>
      if negb (N.eqb (pflen p) 0) || match pst p with IN_QUOTED_FIELD => true | _ => false end
      then Ok [rev (rev (pfield p) :: pfields p)]
      else Ok []
  | t :: ts' =>
      match step p t with
      | Err e => Err e
      | Ok p' =>
          match t, pst p' with
          | EOL, START_RECORD => cons_ok (rev (pfields p')) (read_tokens ts' parser_init)
          | _, _ => read_tokens ts' p'
          end
      end
  end.

Definition csv_read (s : pystr) : result (list (list pystr)) :=
  read_tokens (file_tokens s) parser_init.

(** *** [csv.DictReader] ([restkey=None], [restval=None]) *)

Definition row_to_dict (names row : list pystr) : pydict :=
  let d := fold_left (fun acc kv => dict_set acc (Some (fst kv)) (VStr (snd kv)))
                     (combine names row) [] in
  let lf := List.length names in
  let lr := List.length row in
  if Nat.ltb lf lr then dict_set d None (VList (skipn lf row))
  else if Nat.ltb lr lf then
    fold_left (fun acc k => dict_set acc (Some k) VNone) (skipn lr names) d
  else d.

Fixpoint dict_rows (names : list pystr) (rows : list (list pystr)) : list pydict :=
  match rows with
  | [] => []
  | [] :: rows' => dict_rows names rows'
  | row :: rows' => row_to_dict names row :: dict_rows names rows'
  end.

Definition dict_reader (rows : list (list pystr)) : list pydict :=
  match rows with
  | [] => []
  | header :: rows' => dict_rows header rows'
  end.

(** ** The phonebook operations *)

(** The file [phonebook.csv]: the text its bytes decode to, or [None]
    when it does not exist. Both functions open it with
    [encoding='utf-8'] (strict). Writing a string that holds a lone
    surrogate raises [UnicodeEncodeError] ([utf8_encodable] below, checked
    by [save_rows]); every other string is encoded and decoded back to
    itself. A file whose bytes are not valid UTF-8, on which reading
    raises [UnicodeDecodeError], has no text and is not represented. *)
Definition disk := option pystr.

(** A lone surrogate, U+D800 to U+DFFF: a code point a Python [str] can
    hold but the [utf-8] codec refuses. *)
Definition is_surrogate (c : N) : bool := (0xD800 <=? c)%N && (c <=? 0xDFFF)%N.

(** [s.encode('utf-8')] does not raise. *)
Definition utf8_encodable (s : pystr) : bool := negb (existsb is_surrogate s).

(** [load_phonebook()]. *)
Definition load_phonebook (file : disk) : result (list pydict) :=
  match file with
  | None => Ok []
  | Some s =>
      match csv_read s with
      | Ok rows => Ok (dict_reader rows)
      | Err e => Err e
      end
  end.

(** The loop of [save_phonebook]: [entry['ID'] = idx] (an [int], written
    into the entry itself) and then [writer.writerow(entry)]. Returns the
    entries after the loop, the text written and the exception raised, if
    any; the entries after a failing one are left as they were.
    [writerow] raises [ValueError] for a key outside the header before it
    writes anything; otherwise it passes the whole line to the file's
    [write] in one call, which encodes it at once and raises
    [UnicodeEncodeError] (the line is not written) if it holds a lone
    surrogate. The lines written before stay in the buffer and reach the
    file when the [with] block closes it. *)
Fixpoint save_rows (idx : Z) (pb : list pydict) : list pydict * pystr * option pyerr :=
  match pb with
  | [] => ([], [], None)
  | entry :: pb' =>
      let entry' := dict_set entry (Some k_ID) (VInt idx) in
      match dict_to_list fieldnames entry' with
      | Err e => (entry' :: pb', [], Some e)
      | Ok row =>
          if utf8_encodable (csv_writerow row) then
            let '(pb'', out, r) := save_rows (idx + 1)%Z pb' in
            (entry' :: pb'', csv_writerow row ++ out, r)
          else (entry' :: pb', [], Some UnicodeEncodeError)
      end
  end.

(** [save_phonebook(phonebook)]: the file is truncated, the header and
    then the rows are written (the header line holds no surrogate). *)
Definition save_phonebook (pb : list pydict) : list pydict * pystr * option pyerr :=
  let '(pb', body, r) := save_rows 1 pb in
  (pb', csv_writerow fieldnames ++ body, r).

(** Python's slice [l[i:j]] (step 1). *)
Definition py_index (i len : Z) : Z :=
  if (i <? 0)%Z then Z.max 0 (i + len) else Z.min i len.

Definition py_slice {A} (l : list A) (i j : Z) : list A :=
  let len := Z.of_nat (List.length l) in
  let lo := py_index i len in
  let hi := py_index j len in
  firstn (Z.to_nat (hi - lo)) (skipn (Z.to_nat lo) l).

(** [display_page(page_num, entries_per_page, phonebook)]: the entries it
    prints. *)
Definition display_page {A} (page_num entries_per_page : Z) (phonebook : list A) : list A :=
  let start_idx := ((page_num - 1) * entries_per_page)%Z in
  let end_idx := (start_idx + entries_per_page)%Z in
  py_slice phonebook start_idx end_idx.

(** The state the interactive functions act on: the in-memory list of
    entries and the file. *)
Record store : Type := mkStore {
  phonebook : list pydict;
  file : disk
}.

(** What a call ends with: normally, with the "wrong index" message of
    [edit_entry], or with an exception. *)
Inductive outcome : Type :=
| Done
| BadIndex
| Raised (e : pyerr).

Definition save_store (pb : list pydict) : store * outcome :=
  let '(pb', out, r) := save_phonebook pb in
  (mkStore pb' (Some out), match r with None => Done | Some e => Raised e end).

(** [add_entry(phonebook)], where [contact_data] is what
    [input_contact_data()] returned ([{}] after a validation error). *)
Definition add_entry (s : store) (contact_data : pydict) : store * outcome :=
  if negb (is_empty contact_data) then save_store (phonebook s ++ [contact_data])
  else (s, Done).

(** [edit_entry(phonebook, entry_idx)], where [contact_data] is what
    [input_contact_data()] returned. The entry is updated in place
    ([entry.update(contact_data)]); a [ValueError] raised by the save is
    caught and printed, which the outcome [Raised] records. *)
Definition edit_entry (s : store) (entry_idx : Z) (contact_data : pydict) : store * outcome :=
  let i := (entry_idx - 1)%Z in
  if (0 <=? i)%Z && (i <? Z.of_nat (List.length (phonebook s)))%Z then
    match nth_error (phonebook s) (Z.to_nat i) with
    | Some entry =>
        if negb (is_empty contact_data) then
          save_store (list_set (phonebook s) (Z.to_nat i) (dict_update entry contact_data))
        else (s, Done)
    | None => (s, Done)
    end
  else (s, BadIndex).

(** *** [search_entries] *)

Fixpoint is_prefix (t s : pystr) : bool :=
  match t, s with
  | [], _ => true
  | x :: t', y :: s' => N.eqb x y && is_prefix t' s'
  | _ :: _, [] => false
  end.

(** [t in s] for strings. *)
Fixpoint is_substring (t s : pystr) : bool :=
  is_prefix t s || match s with [] => false | _ :: s' => is_substring t s' end.

Section Search.

(** [str.lower()]: Unicode full lowercase mapping, kept abstract. *)
Variable lower : pystr -> pystr.

(** [value.lower()]: only strings have the method. *)
Definition value_lower (v : pyval) : result pystr :=
  match v with
  | VStr s => Ok (lower s)
  | _ => Err AttributeError
  end.

(** [any(search_term in value.lower() for value in values)]: stops at the
    first match. *)
Fixpoint any_contains (search_term : pystr) (vs : list pyval) : result bool :=
  match vs with
  | [] => Ok false
  | v :: vs' =>
      match value_lower v with
      | Err e => Err e
      | Ok s => if is_substring search_term s then Ok true else any_contains search_term vs'
      end
  end.

Fixpoint filter_entries (search_term : pystr) (pb : list pydict) : result (list pydict) :=
  match pb with
  | [] => Ok []
  | entry :: pb' =>
      match any_contains search_term (dict_values entry) with
      | Err e => Err e
      | Ok true => cons_ok entry (filter_entries search_term pb')
      | Ok false => filter_entries search_term pb'
      end
  end.

(** One pass of [search_entries(phonebook)] on the line [line] typed by
    the user: the results it prints. *)
Definition search_entries (line : pystr) (pb : list pydict) : result (list pydict) :=
  let search_term := lower line in
  if is_empty (strip search_term) then Err EmptySearchTerm
  else filter_entries search_term pb.

End Search.

(** ** Console input *)

(** The lines still to be read from standard input are the state of the
    interactive code; the prompts and messages it prints are left out.
    [input()] returns the next line without its newline and raises
    [EOFError] at the end of the input. *)
Inductive io_exn : Type :=
| EOFError
| PyExn (e : pyerr).

Definition io (A : Type) : Type := list pystr -> (A + io_exn) * list pystr.

Definition io_ret {A} (x : A) : io A := fun inp => (inl x, inp).

Definition io_bind {A B} (m : io A) (f : A -> io B) : io B := fun inp =>
  match m inp with
  | (inl x, inp') => f x inp'
  | (inr e, inp') => (inr e, inp')
  end.

Notation "x <- m ;; k" := (io_bind m (fun x => k))
  (at level 61, m at next level, right associativity).

Definition input : io pystr := fun inp =>
  match inp with
  | [] => (inr EOFError, [])
  | l :: inp' => (inl l, inp')
  end.

(** A call that returns or raises. *)
Definition io_lift {A} (r : result A) : io A := fun inp =>
  match r with
  | Ok x => (inl x, inp)
  | Err e => (inr (PyExn e), inp)
  end.

(** [try: m except ValueError as e: handler(e)]. *)
Definition try_value_error {A} (m : io A) (handler : pystr -> io A) : io A := fun inp =>
  match m inp with
  | (inr (PyExn (ValueError msg)), inp') => handler msg inp'
  | r => r
  end.

(** [while True: phone = input(...); if validate_phone_number(phone): break]. *)
Fixpoint read_phone (inp : list pystr) : (pystr + io_exn) * list pystr :=
  match inp with
  | [] => (inr EOFError, [])
  | l :: inp' => if validate_phone_number l then (inl l, inp') else read_phone inp'
  end.

(** [input_contact_data()]. *)
Definition input_contact_data : io pydict :=
  try_value_error
    (let contact_data : pydict := [] in
     l1 <- input ;; v1 <- io_lift (validate_string_input l1 k_LastName) ;;
     let contact_data := dict_set contact_data (Some k_LastName) (VStr v1) in
     l2 <- input ;; v2 <- io_lift (validate_string_input l2 k_FirstName) ;;
     let contact_data := dict_set contact_data (Some k_FirstName) (VStr v2) in
     l3 <- input ;; v3 <- io_lift (validate_string_input l3 k_Patronymic) ;;
     let contact_data := dict_set contact_data (Some k_Patronymic) (VStr v3) in
     l4 <- input ;; v4 <- io_lift (validate_string_input l4 k_Organization) ;;
     let contact_data := dict_set contact_data (Some k_Organization) (VStr v4) in
     work_phone <- read_phone ;;
     let contact_data := dict_set contact_data (Some k_WorkPhone) (VStr work_phone) in
     personal_phone <- read_phone ;;
     let contact_data := dict_set contact_data (Some k_PersonalPhone) (VStr personal_phone) in
     io_ret contact_data)
    (fun _ => io_ret []).

(** [add_entry(phonebook)] with the contact data read from the console. *)
Definition add_entry_io (s : store) : io (store * outcome) :=
  contact_data <- input_contact_data ;; io_ret (add_entry s contact_data).

(** [edit_entry(phonebook, entry_idx)] with the contact data read from the
    console (only for an index in range, as the source asks for it only
    then). *)
Definition edit_entry_io (s : store) (entry_idx : Z) : io (store * outcome) :=
  let i := (entry_idx - 1)%Z in
  if (0 <=? i)%Z && (i <? Z.of_nat (List.length (phonebook s)))%Z then
    contact_data <- input_contact_data ;; io_ret (edit_entry s entry_idx contact_data)
  else io_ret (edit_entry s entry_idx []).

(** ** Auxiliary definitions for the proofs *)

(** The entries as [save_phonebook] leaves them when it succeeds. *)
Fixpoint set_ids (idx : Z) (pb : list pydict) : list pydict :=
  match pb with
  | [] => []
  | e :: pb' => dict_set e (Some k_ID) (VInt idx) :: set_ids (idx + 1)%Z pb'
  end.

(** The row [csv.DictWriter] writes for an entry without extra keys. *)
Definition field_text (e : pydict) (n : pystr) : pystr :=
  match dict_get e (Some n) with Some v => csv_str_of v | None => [] end.

Definition row_of (e : pydict) : list pystr := map (field_text e) fieldnames.

(** Every key of the entry is one of the seven header names. *)
Definition keys_ok (d : pydict) : Prop :=
  forallb (fun k => key_in k fieldnames) (dict_keys d) = true.

(** A character written as it is, outside quotes. *)
Definition plain_char (c : N) : bool :=
  negb (N.eqb c COMMA || N.eqb c DQUOTE || is_nl c).

(** The parser states a field's text can leave it in. *)
Definition after_field (s : pstate) : Prop :=
  s = START_FIELD \/ s = IN_FIELD \/ s = QUOTE_IN_QUOTED_FIELD.

(** A field the reader accepts under the default [field_size_limit]. *)
Definition fits (f : pystr) : Prop := (N.of_nat (List.length f) <= field_limit)%N.

(** A record [save_phonebook] can write and the reader can read back:
    no key outside the header, and the six contact fields are strings
    within the field size limit. *)
Definition record_fits (e : pydict) : Prop :=
  keys_ok e /\
  Forall (fun n => exists v, dict_get e (Some n) = Some (VStr v) /\ fits v) (tl fieldnames).

(** No string of the value holds a lone surrogate. *)
Definition value_encodable (v : pyval) : bool :=
  match v with
  | VStr s => utf8_encodable s
  | VList l => forallb utf8_encodable l
  | VInt _ | VNone => true
  end.

(** No value of the entry holds a lone surrogate: [save_phonebook] can
    encode its row. *)
Definition entry_encodable (d : pydict) : Prop :=
  forallb value_encodable (dict_values d) = true.

(** ** Sample data *)

Definition contact (last first patr org work pers : string) : pydict :=
  [(Some k_LastName, VStr (utf8 last)); (Some k_FirstName, VStr (utf8 first));
   (Some k_Patronymic, VStr (utf8 patr)); (Some k_Organization, VStr (utf8 org));
   (Some k_WorkPhone, VStr (utf8 work)); (Some k_PersonalPhone, VStr (utf8 pers))].

Definition c_ivanov : pydict :=
  contact "Ivanov" "Ivan" "Ivanovich" "Ivanov LLC" "+7 (123) 456-78-90" "+7 (123) 456-78-91".

Definition c_petrov : pydict :=
  contact "Petrov" "Petr" "Petrovich" "Romashka" "+7 (495) 111-22-33" "+7 (916) 444-55-66".

(** The file written by saving the phonebook [[c_ivanov; c_petrov]]. *)
Definition sample_file : pystr :=
  let '(_, out, _) := save_phonebook [c_ivanov; c_petrov] in out.

(** An organisation name one character longer than the field size
    limit, and Ivanov's record with it. *)
Definition long_org : pystr := repeat 97%N (S (N.to_nat field_limit)).

Definition c_long : pydict := dict_set c_ivanov (Some k_Organization) (VStr long_org).

(** A file whose data row is shorter than its header. *)
Definition short_row_file : pystr :=
  utf8 "ID,Фамилия" ++ [CR; LF] ++ utf8 "1" ++ [CR; LF].

(** A file whose data row has more fields than the header. *)
Definition long_row_file : pystr :=
  utf8 "ID,Фамилия" ++ [CR; LF] ++ utf8 "1,Ivanov,extra" ++ [CR; LF].

(** The value is a [str]. *)
Definition is_str (v : pyval) : bool :=
  match v with VStr _ => true | _ => false end.

(** Every value of the entry is a [str]. *)
Definition all_str (d : pydict) : bool := forallb is_str (dict_values d).

(** An entry some of whose string values contains the term once lowered. *)
Definition entry_matches (lower : pystr -> pystr) (t : pystr) (e : pydict) : bool :=
  existsb (fun v => match v with VStr s => is_substring t (lower s) | _ => false end)
          (dict_values e).

(** The text of a phone number in the format of the pattern, from its
    four groups of digits. *)
Definition phone_text (a b c d : pystr) : pystr :=
  utf8 "+7 (" ++ a ++ utf8 ") " ++ b ++ utf8 "-" ++ c ++ utf8 "-" ++ d.

(** The pages [1 .. k] of size [n], one after the other. *)
Definition pages {A} (k : nat) (n : Z) (l : list A) : list A :=
  List.concat (map (fun p => display_page (Z.of_nat p) n l) (seq 1 k)).

(** The dict [input_contact_data()] builds from its six answers. *)
Definition contact_dict (v1 v2 v3 v4 wp pp : pystr) : pydict :=
  [(Some k_LastName, VStr v1); (Some k_FirstName, VStr v2);
   (Some k_Patronymic, VStr v3); (Some k_Organization, VStr v4);
   (Some k_WorkPhone, VStr wp); (Some k_PersonalPhone, VStr pp)].

(** ** Proof tools *)

Ltac inv H := inversion H; subst; clear H.

Lemma str_eqb_eq : forall a b, str_eqb a b = true <-> a = b.
Proof.
  induction a as [|x a IH]; destruct b as [|y b]; simpl; try (split; congruence).
  rewrite andb_true_iff, N.eqb_eq, IH. split; [intros [-> ->]; reflexivity | intros H; inv H; auto].
Qed.

Lemma key_eqb_eq : forall a b, key_eqb a b = true <-> a = b.
Proof.
  destruct a, b; simpl; try (split; congruence).
  rewrite str_eqb_eq. split; congruence.
Qed.

Lemma key_eqb_refl : forall a, key_eqb a a = true.
Proof. intros. apply key_eqb_eq. reflexivity. Qed.

Lemma key_eqb_sym : forall a b, key_eqb a b = key_eqb b a.
Proof.
  intros. destruct (key_eqb a b) eqn:E, (key_eqb b a) eqn:F; auto.
  - apply key_eqb_eq in E. subst. rewrite key_eqb_refl in F. discriminate.
  - apply key_eqb_eq in F. subst. rewrite key_eqb_refl in E. discriminate.
Qed.

Lemma dict_get_set : forall d k v k',
  dict_get (dict_set d k v) k' = if key_eqb k' k then Some v else dict_get d k'.
Proof.
  induction d as [|[k0 v0] d IH]; intros; simpl.
  - reflexivity.
  - destruct (key_eqb k k0) eqn:E; simpl.
    + apply key_eqb_eq in E. subst. destruct (key_eqb k' k0); reflexivity.
    + rewrite IH. destruct (key_eqb k' k0) eqn:F; auto.
      apply key_eqb_eq in F. subst. rewrite key_eqb_sym, E. reflexivity.
Qed.

Lemma dict_keys_set : forall d k v,
  dict_keys (dict_set d k v) = if existsb (key_eqb k) (dict_keys d) then dict_keys d
                               else dict_keys d ++ [k].
Proof.
  induction d as [|[k0 v0] d IH]; intros; simpl; auto.
  destruct (key_eqb k k0) eqn:E; simpl; auto.
  rewrite IH. destruct (existsb (key_eqb k) (dict_keys d)); reflexivity.
Qed.



Lemma read_tokens_chr : forall c ts p,
  read_tokens (Chr c :: ts) p =
    match step p (Chr c) with Ok p' => read_tokens ts p' | Err e => Err e end.
Proof.
  intros. simpl. destruct (step p (Chr c)); auto.
Qed.

Lemma Forall_nth_error : forall {A} (P : A -> Prop) l i x,
  Forall P l -> nth_error l i = Some x -> P x.
Proof.
  intros A P l i x H. revert i. induction H; intros [|i] E; simpl in E; try discriminate.
  - inv E. assumption.
  - eauto.
Qed.

(** ** Validators *)

Lemma lstrip_exists : forall s,
  Exists (fun c => py_isspace c = false) s -> Exists (fun c => py_isspace c = false) (lstrip s).
Proof.
  induction s as [|c s IH]; intros H; simpl; [inv H|].
  destruct (py_isspace c) eqn:E.
  - inv H; [congruence | auto].
  - assumption.
Qed.

Lemma strip_exists_nonempty : forall s,
  Exists (fun c => py_isspace c = false) s -> strip s <> [].
Proof.
  intros s H. unfold strip, rstrip.
  apply lstrip_exists, Exists_rev, lstrip_exists, Exists_rev in H.
  intros E. rewrite E in H. inv H.
Qed.

(** C7: a string with a non-whitespace character validates to its
    stripped form; a string that is empty after stripping is rejected
    with a [ValueError] whose message starts with the field name. *)
Theorem validate_string_input_spec : forall s field_name,
  (Exists (fun c => py_isspace c = false) s ->
     validate_string_input s field_name = Ok (strip s)) /\
  (strip s = [] ->
     validate_string_input s field_name =
       Err (ValueError (field_name ++ utf8 " не может быть пустым."))).
Proof.
  intros s f. unfold validate_string_input. split.
  - intros H. apply strip_exists_nonempty in H.
    destruct (strip s); [congruence | reflexivity].
  - intros ->. reflexivity.
Qed.

Lemma validate_string_input_spec_witness :
  Exists (fun c => py_isspace c = false) (utf8 "  Ivanov ") /\
  validate_string_input (utf8 "  Ivanov ") k_LastName = Ok (strip (utf8 "  Ivanov ")) /\
  strip (utf8 " 	 ") = [] /\
  validate_string_input (utf8 " 	 ") k_LastName =
    Err (ValueError (k_LastName ++ utf8 " не может быть пустым.")).
Proof.
  assert (Hx : Exists (fun c => py_isspace c = false) (utf8 "  Ivanov ")).
  { simpl. do 2 apply Exists_cons_tl. apply Exists_cons_hd. reflexivity. }
  assert (Hs : strip (utf8 " 	 ") = []) by reflexivity.
  split; [exact Hx|]. split; [apply (proj1 (validate_string_input_spec _ k_LastName)); exact Hx|].
  split; [exact Hs|]. apply (proj2 (validate_string_input_spec _ k_LastName)). exact Hs.
Defined.

(** C6: the three examples of the spec hold, but [$] also matches before
    a final newline, so a number followed by ['\n'] is accepted although
    the string does not fully match the pattern. *)
Theorem validate_phone_number_trailing_newline :
  validate_phone_number (utf8 "+7 (123) 456-78-90") = true /\
  validate_phone_number (utf8 "+7(123)4567890") = false /\
  validate_phone_number (utf8 "+7 (12) 345-67-89") = false /\
  validate_phone_number (utf8 "+7 (123) 456-78-90" ++ [LF]) = true /\
  phone_fullmatch (utf8 "+7 (123) 456-78-90" ++ [LF]) = false.
Proof. vm_compute. repeat split. Qed.

(** ** Loading *)

(** C9: a missing file loads as the empty phonebook. *)
Theorem load_phonebook_missing_file : load_phonebook None = Ok [].
Proof. reflexivity. Qed.

(** ** Pagination *)

Lemma firstn_min_length : forall {A} (l : list A) n,
  firstn (Nat.min n (List.length l)) l = firstn n l.
Proof.
  intros. destruct (Nat.le_ge_cases n (List.length l)).
  - rewrite Nat.min_l by assumption. reflexivity.
  - rewrite Nat.min_r by assumption. rewrite firstn_all, firstn_all2 by assumption. reflexivity.
Qed.

(** C2 (as the code has it): for a page number of at least 1 and a
    non-negative page size the page is the slice starting at
    [(page_num - 1) * entries_per_page] of at most [entries_per_page]
    entries; it is empty when that start is at or past the end, and when
    the page number or the page size is 0. *)
Theorem display_page_slice : forall {A} (l : list A) (page_num entries_per_page : Z),
  ((1 <= page_num)%Z -> (0 <= entries_per_page)%Z ->
     display_page page_num entries_per_page l =
       firstn (Z.to_nat entries_per_page)
              (skipn (Z.to_nat ((page_num - 1) * entries_per_page)) l)) /\
  ((Z.of_nat (List.length l) <= (page_num - 1) * entries_per_page)%Z ->
     display_page page_num entries_per_page l = []) /\
  (page_num = 0%Z \/ entries_per_page = 0%Z ->
     display_page page_num entries_per_page l = []).
Proof.
  intros A l p n. unfold display_page, py_slice, py_index.
  remember (Z.of_nat (List.length l)) as len eqn:Hl.
  assert (Hlen : (0 <= len)%Z) by lia.
  split; [|split].
  - intros Hp Hn.
    assert (H0 : (0 <= (p - 1) * n)%Z) by nia.
    rewrite (proj2 (Z.ltb_ge _ 0) H0).
    rewrite (proj2 (Z.ltb_ge _ 0)) by lia.
    destruct (Z.le_ge_cases len ((p - 1) * n)) as [Hge|Hlt].
    + rewrite (Z.min_r ((p - 1) * n)) by lia. rewrite Z.min_r by lia.
      rewrite !skipn_all2 by lia. rewrite !firstn_nil. reflexivity.
    + rewrite (Z.min_l ((p - 1) * n) len) by lia.
      rewrite <- (firstn_min_length (skipn _ l) (Z.to_nat n)), length_skipn.
      f_equal. lia.
  - intros Hge.
    rewrite (proj2 (Z.ltb_ge ((p - 1) * n) 0)) by lia.
    rewrite (Z.min_r ((p - 1) * n)) by lia.
    rewrite skipn_all2 by lia. apply firstn_nil.
  - intros Hz.
    assert (Hle : (py_index ((p - 1) * n + n) len <= py_index ((p - 1) * n) len)%Z).
    { unfold py_index.
      destruct Hz as [-> | ->]; rewrite ?Z.mul_0_r;
        repeat match goal with |- context [(?x <? 0)%Z] => destruct (Z.ltb_spec x 0) end; lia. }
    unfold py_index in Hle. replace (Z.to_nat _) with 0%nat by lia. reflexivity.
Qed.

Lemma display_page_slice_witness :
  ((1 <= 3)%Z /\ (0 <= 2)%Z /\
   display_page 3 2 [1;2;3;4;5]%nat = firstn (Z.to_nat 2) (skipn (Z.to_nat ((3 - 1) * 2)) [1;2;3;4;5]%nat)) /\
  ((Z.of_nat (List.length [1;2;3;4;5]%nat) <= (10 - 1) * 2)%Z /\ display_page 10 2 [1;2;3;4;5]%nat = []) /\
  ((0%Z = 0%Z \/ 2%Z = 0%Z) /\ display_page 0 2 [1;2;3;4;5]%nat = []).
Proof.
  split; [|split].
  - split; [lia|]. split; [lia|]. apply (proj1 (display_page_slice [1;2;3;4;5]%nat 3 2)); lia.
  - split; [vm_compute; discriminate|].
    apply (proj1 (proj2 (display_page_slice [1;2;3;4;5]%nat 10 2))). vm_compute. discriminate.
  - split; [left; reflexivity|]. apply (proj2 (proj2 (display_page_slice [1;2;3;4;5]%nat 0 2))). left. reflexivity.
Defined.

(** C2 as stated fails: page 1 of size -1 is not empty, Python's
    negative slice bound drops only the last entry. *)
Lemma display_page_negative_size :
  display_page 1 (-1) [1;2;3;4;5]%nat = [1;2;3;4]%nat.
Proof. reflexivity. Qed.

(** ** Editing *)

(** C4: an index outside [[1, len]] changes nothing (neither the entries
    nor the file) and only reports the wrong index. *)
Theorem edit_entry_out_of_range : forall s entry_idx contact_data,
  (entry_idx < 1 \/ Z.of_nat (List.length (phonebook s)) < entry_idx)%Z ->
  edit_entry s entry_idx contact_data = (s, BadIndex).
Proof.
  intros s i cd H. unfold edit_entry.
  replace ((0 <=? i - 1)%Z && (i - 1 <? Z.of_nat (List.length (phonebook s)))%Z) with false.
  - reflexivity.
  - symmetry. apply andb_false_iff. destruct H.
    + left. apply Z.leb_gt. lia.
    + right. apply Z.ltb_ge. lia.
Qed.

Lemma edit_entry_out_of_range_witness :
  (0 < 1 \/ Z.of_nat (List.length [c_ivanov]) < 0)%Z /\
  edit_entry (mkStore [c_ivanov] None) 0 c_petrov = (mkStore [c_ivanov] None, BadIndex).
Proof.
  split; [left; lia|]. apply edit_entry_out_of_range. simpl. lia.
Defined.

(** ** Saving *)

Lemma existsb_negb : forall {A} (f : A -> bool) l,
  existsb (fun x => negb (f x)) l = negb (forallb f l).
Proof.
  induction l as [|x l IH]; simpl; auto. rewrite IH. destruct (f x); reflexivity.
Qed.

Lemma keys_ok_set_id : forall e v, keys_ok e -> keys_ok (dict_set e (Some k_ID) v).
Proof.
  unfold keys_ok. intros e v H. rewrite dict_keys_set.
  destruct (existsb _ _); auto.
  rewrite forallb_app, H. reflexivity.
Qed.

Lemma dict_to_list_ok : forall e, keys_ok e -> dict_to_list fieldnames e = Ok (row_of e).
Proof.
  intros e H. unfold dict_to_list. rewrite existsb_negb, H. reflexivity.
Qed.

Lemma field_text_set_id : forall e idx n,
  field_text (dict_set e (Some k_ID) (VInt idx)) n =
    if str_eqb n k_ID then py_str_int idx else field_text e n.
Proof.
  intros. unfold field_text. rewrite dict_get_set. simpl key_eqb.
  destruct (str_eqb n k_ID); reflexivity.
Qed.

Lemma existsb_sur_double_quotes : forall f,
  existsb is_surrogate (double_quotes f) = existsb is_surrogate f.
Proof.
  induction f as [|c f IH]; [reflexivity|]. unfold double_quotes in *. cbn [flat_map].
  rewrite existsb_app, IH. destruct (N.eqb c DQUOTE) eqn:E.
  - apply N.eqb_eq in E. subst c. reflexivity.
  - cbn. rewrite orb_false_r. reflexivity.
Qed.

Lemma existsb_sur_csv_field : forall f,
  existsb is_surrogate (csv_field f) = existsb is_surrogate f.
Proof.
  intros f. unfold csv_field. destruct (needs_quotes f); [|reflexivity].
  cbn [existsb]. rewrite existsb_app, existsb_sur_double_quotes.
  change (is_surrogate DQUOTE) with false. cbn. rewrite orb_false_r. reflexivity.
Qed.

Lemma existsb_sur_join_fields : forall fs,
  existsb is_surrogate (join_fields fs) = existsb (existsb is_surrogate) fs.
Proof.
  induction fs as [|f fs IH]; [reflexivity|].
  destruct fs as [|f2 fs].
  - cbn. rewrite existsb_sur_csv_field, orb_false_r. reflexivity.
  - change (join_fields (f :: f2 :: fs)) with (csv_field f ++ COMMA :: join_fields (f2 :: fs)).
    rewrite existsb_app, existsb_sur_csv_field. cbn [existsb].
    change (is_surrogate COMMA) with false. rewrite IH. reflexivity.
Qed.

(** A line of the writer holds a lone surrogate exactly when one of its
    fields does. *)
Lemma utf8_encodable_writerow : forall row,
  utf8_encodable (csv_writerow row) = forallb utf8_encodable row.
Proof.
  intros row. unfold utf8_encodable.
  transitivity (negb (existsb (existsb is_surrogate) row)).
  - f_equal. destruct row as [|f [|f2 fs]]; [reflexivity| |].
    + destruct f; [reflexivity|].
      unfold csv_writerow. rewrite existsb_app, existsb_sur_join_fields.
      replace (existsb is_surrogate [CR; LF]) with false by reflexivity. apply orb_false_r.
    + replace (csv_writerow (f :: f2 :: fs)) with (join_fields (f :: f2 :: fs) ++ [CR; LF])
        by (destruct f; reflexivity).
      rewrite existsb_app, existsb_sur_join_fields.
      replace (existsb is_surrogate [CR; LF]) with false by reflexivity. apply orb_false_r.
  - induction row as [|f row IH]; [reflexivity|]. cbn [existsb forallb].
    rewrite negb_orb, IH. reflexivity.
Qed.

Lemma digits_of_encodable : forall f n, existsb is_surrogate (digits_of f n) = false.
Proof.
  assert (D : forall d, (d < 10)%N -> is_surrogate (48 + d) = false).
  { intros d Hd. unfold is_surrogate. apply andb_false_iff. left. apply N.leb_gt. lia. }
  induction f as [|f IH]; intros n; [reflexivity|]. cbn [digits_of].
  destruct (n <? 10)%N eqn:E.
  - apply N.ltb_lt in E. cbn [existsb]. rewrite D by exact E. reflexivity.
  - rewrite existsb_app, IH. cbn [existsb orb]. rewrite D by (apply N.mod_lt; lia). reflexivity.
Qed.

Lemma py_str_int_encodable : forall z, utf8_encodable (py_str_int z) = true.
Proof.
  intros z. unfold utf8_encodable, py_str_int, dec_N.
  destruct (z <? 0)%Z; cbn [existsb]; rewrite digits_of_encodable; reflexivity.
Qed.

Lemma dict_get_in_values : forall d k v, dict_get d k = Some v -> In v (dict_values d).
Proof.
  induction d as [|[k' v'] d IH]; intros k v H; [discriminate|].
  simpl in H. destruct (key_eqb k k'); [inv H; left; reflexivity|].
  right. eapply IH. exact H.
Qed.

Lemma csv_str_of_encodable : forall v, value_encodable v = true -> utf8_encodable (csv_str_of v) = true.
Proof. intros [s| z | | l] H; simpl; auto. apply py_str_int_encodable. Qed.

(** The row [save_phonebook] writes for an entry none of whose values
    holds a lone surrogate can be encoded. *)
Lemma row_encodable : forall e idx,
  entry_encodable e ->
  utf8_encodable (csv_writerow (row_of (dict_set e (Some k_ID) (VInt idx)))) = true.
Proof.
  intros e idx He. rewrite utf8_encodable_writerow. unfold row_of.
  apply forallb_forall. intros x Hx. apply in_map_iff in Hx as [n [<- _]].
  rewrite field_text_set_id. destruct (str_eqb n k_ID); [apply py_str_int_encodable|].
  unfold field_text. destruct (dict_get e (Some n)) as [v|] eqn:Hv; [|reflexivity].
  apply csv_str_of_encodable. unfold entry_encodable in He. rewrite forallb_forall in He.
  apply He. eapply dict_get_in_values. exact Hv.
Qed.

Lemma set_ids_encodable : forall pb idx,
  Forall entry_encodable pb ->
  Forall (fun e => utf8_encodable (csv_writerow (row_of e)) = true) (set_ids idx pb).
Proof.
  induction pb as [|e pb IH]; intros idx H; [constructor|].
  inv H. constructor; [apply row_encodable; assumption | apply IH; assumption].
Qed.

Lemma save_rows_ok_rows : forall pb idx,
  Forall keys_ok pb ->
  Forall (fun e => utf8_encodable (csv_writerow (row_of e)) = true) (set_ids idx pb) ->
  save_rows idx pb =
    (set_ids idx pb, List.concat (map (fun e => csv_writerow (row_of e)) (set_ids idx pb)), None).
Proof.
  induction pb as [|e pb IH]; intros idx H Hr; [reflexivity|].
  inv H. cbn [set_ids] in Hr. inv Hr. cbn [save_rows].
  rewrite dict_to_list_ok by (apply keys_ok_set_id; assumption).
  rewrite H1, IH by assumption. reflexivity.
Qed.

Lemma save_rows_ok : forall pb idx,
  Forall keys_ok pb -> Forall entry_encodable pb ->
  save_rows idx pb =
    (set_ids idx pb, List.concat (map (fun e => csv_writerow (row_of e)) (set_ids idx pb)), None).
Proof.
  intros pb idx H He. apply save_rows_ok_rows; [exact H|]. apply set_ids_encodable. exact He.
Qed.

(** What a save writes when every key is a header name: the rows of the
    entries before the first one it cannot encode. *)
Lemma save_rows_prefix : forall pb idx,
  Forall keys_ok pb ->
  exists pre rest, pb = pre ++ rest /\
    Forall (fun e => utf8_encodable (csv_writerow (row_of e)) = true) (set_ids idx pre) /\
    snd (fst (save_rows idx pb)) = List.concat (map (fun e => csv_writerow (row_of e)) (set_ids idx pre)).
Proof.
  induction pb as [|e pb IH]; intros idx H.
  - exists [], []. repeat split; constructor.
  - inv H. cbn [save_rows].
    rewrite dict_to_list_ok by (apply keys_ok_set_id; assumption).
    destruct (utf8_encodable (csv_writerow (row_of (dict_set e (Some k_ID) (VInt idx))))) eqn:E.
    + destruct (IH (idx + 1)%Z H3) as [pre [rest [-> [Hr Ho]]]].
      destruct (save_rows (idx + 1) (pre ++ rest)) as [[pb2 out2] r2]. cbn [fst snd] in *.
      exists (e :: pre), rest. split; [reflexivity|]. split.
      * cbn [set_ids]. constructor; assumption.
      * cbn [set_ids map List.concat]. rewrite Ho. reflexivity.
    + exists [], (e :: pb). repeat split; constructor.
Qed.



Lemma set_ids_nth : forall pb idx j,
  nth_error (set_ids idx pb) j =
    option_map (fun e => dict_set e (Some k_ID) (VInt (idx + Z.of_nat j))) (nth_error pb j).
Proof.
  induction pb as [|e pb IH]; intros idx [|j]; simpl; auto.
  - rewrite Z.add_0_r. reflexivity.
  - rewrite IH. destruct (nth_error pb j); simpl; auto. do 3 f_equal. lia.
Qed.

Lemma set_ids_length : forall pb idx, List.length (set_ids idx pb) = List.length pb.
Proof. induction pb; simpl; auto. Qed.


Lemma list_set_length : forall {A} (l : list A) i x, List.length (list_set l i x) = List.length l.
Proof. induction l; intros [|i] x; simpl; auto. Qed.

(** ** Searching *)

(** C3 fails on the code: after a load and an [add_entry] (any save), the
    loaded entries hold the [int] id in their first field, and
    [value.lower()] raises [AttributeError] on it, whatever the search
    term. *)
Theorem search_after_save_raises : forall (lower : pystr -> pystr) (line : pystr),
  strip (lower line) <> [] ->
  match load_phonebook (Some sample_file) with
  | Ok pb =>
      search_entries lower line (phonebook (fst (add_entry (mkStore pb (Some sample_file)) c_ivanov)))
        = Err AttributeError
  | Err _ => False
  end.
Proof.
  intros lower line H.
  destruct (load_phonebook (Some sample_file)) as [pb|e] eqn:E; [|vm_compute in E; discriminate].
  vm_compute in E. inv E.
  unfold search_entries.
  destruct (is_empty (strip (lower line))) eqn:He.
  - destruct (strip (lower line)); simpl in He; congruence.
  - vm_compute. reflexivity.
Qed.

Lemma search_after_save_raises_witness :
  strip ((fun s : pystr => s) (utf8 "ivanov")) <> [] /\
  match load_phonebook (Some sample_file) with
  | Ok pb =>
      search_entries (fun s => s) (utf8 "ivanov")
        (phonebook (fst (add_entry (mkStore pb (Some sample_file)) c_ivanov)))
        = Err AttributeError
  | Err _ => False
  end.
Proof.
  split; [vm_compute; discriminate|].
  apply (search_after_save_raises (fun s => s) (utf8 "ivanov")). vm_compute. discriminate.
Defined.

Lemma keys_ok_set : forall e k v,
  keys_ok e -> key_in k fieldnames = true -> keys_ok (dict_set e k v).
Proof.
  unfold keys_ok. intros e k v H Hk. rewrite dict_keys_set.
  destruct (existsb _ _); [exact H|]. rewrite forallb_app, H. cbn [forallb]. rewrite Hk. reflexivity.
Qed.

Lemma keys_ok_update : forall cd e, keys_ok e -> keys_ok cd -> keys_ok (dict_update e cd).
Proof.
  unfold dict_update. induction cd as [|[k v] cd IH]; intros e He Hcd; [exact He|].
  unfold keys_ok in Hcd. simpl in Hcd. apply andb_true_iff in Hcd as [Hk Hcd].
  simpl. apply IH; [apply keys_ok_set; assumption | exact Hcd].
Qed.

Lemma entry_encodable_set : forall e k v,
  entry_encodable e -> value_encodable v = true -> entry_encodable (dict_set e k v).
Proof.
  unfold entry_encodable. induction e as [|[k' v'] e IH]; intros k v He Hv.
  - simpl. rewrite Hv. reflexivity.
  - simpl in He. apply andb_true_iff in He as [He1 He2].
    simpl. destruct (key_eqb k k'); simpl.
    + rewrite Hv, He2. reflexivity.
    + rewrite He1. apply IH; assumption.
Qed.

Lemma entry_encodable_update : forall cd e,
  entry_encodable e -> entry_encodable cd -> entry_encodable (dict_update e cd).
Proof.
  unfold dict_update. induction cd as [|[k v] cd IH]; intros e He Hcd; [exact He|].
  unfold entry_encodable in Hcd. simpl in Hcd. apply andb_true_iff in Hcd as [Hv Hcd].
  simpl. apply IH; [apply entry_encodable_set; assumption | exact Hcd].
Qed.

Lemma Forall_list_set : forall {A} (P : A -> Prop) l i x,
  Forall P l -> P x -> Forall P (list_set l i x).
Proof.
  induction l as [|y l IH]; intros i x Hl Hx; [constructor|].
  inv Hl. destruct i; simpl; constructor; auto.
Qed.

(** ** Editing in range *)




(** ** Adding *)




(** ** [str(int)] lengths *)

Lemma digits_of_length_mono : forall f m n,
  (m <= n)%N -> List.length (digits_of f m) <= List.length (digits_of f n).
Proof.
  induction f as [|f IH]; intros m n Hmn; simpl; [lia|].
  destruct (N.ltb_spec n 10), (N.ltb_spec m 10); simpl; try lia.
  - rewrite length_app. simpl. lia.
  - rewrite !length_app. simpl.
    specialize (IH (m / 10)%N (n / 10)%N (N.Div0.div_le_mono _ _ 10 Hmn)). lia.
Qed.

Lemma digits_of_fuel : forall f1 f2 n,
  N.to_nat n < f1 -> N.to_nat n < f2 -> digits_of f1 n = digits_of f2 n.
Proof.
  induction f1 as [|f1 IH]; intros [|f2] n H1 H2; try lia. simpl.
  destruct (N.ltb_spec n 10); [reflexivity|].
  f_equal. apply IH.
  - assert (Hd : (n / 10 < n)%N) by (apply N.div_lt; lia). lia.
  - assert (Hd : (n / 10 < n)%N) by (apply N.div_lt; lia). lia.
Qed.

Lemma py_str_int_length_mono : forall a b,
  a <= b ->
  List.length (py_str_int (Z.of_nat a)) <= List.length (py_str_int (Z.of_nat b)).
Proof.
  intros a b Hab. unfold py_str_int.
  rewrite (proj2 (Z.ltb_ge _ 0)) by lia. rewrite (proj2 (Z.ltb_ge (Z.of_nat b) 0)) by lia.
  rewrite <- !nat_N_Z, !N2Z.id. unfold dec_N. rewrite !Nat2N.id.
  rewrite (digits_of_fuel (S a) (S b)) by (rewrite Nat2N.id; lia).
  apply digits_of_length_mono. lia.
Qed.

(** ** The csv reader on what the writer wrote *)

Lemma tok_plain : forall c s, is_nl c = false -> tok (c :: s) = Chr c :: tok s.
Proof.
  intros c s H. unfold is_nl in H. apply orb_false_iff in H as [H1 H2].
  simpl. rewrite H1, H2. reflexivity.
Qed.

Lemma tok_app_plain : forall f X,
  Forall (fun c => is_nl c = false) f -> tok (f ++ X) = map Chr f ++ tok X.
Proof.
  induction f as [|c f IH]; intros X H; simpl; auto.
  inv H. rewrite <- IH by assumption. apply tok_plain. assumption.
Qed.

Lemma tok_crlf : forall X, tok (CR :: LF :: X) = Chr CR :: Chr LF :: EOL :: tok X.
Proof. reflexivity. Qed.

Lemma read_tokens_step : forall c ts p p',
  step p (Chr c) = Ok p' -> read_tokens (Chr c :: ts) p = read_tokens ts p'.
Proof. intros c ts p p' H. rewrite read_tokens_chr, H. reflexivity. Qed.

Lemma add_char_ok : forall c s acc buf n,
  (n < field_limit)%N ->
  add_char c s (mkParser s acc buf n) = Ok (mkParser s acc (c :: buf) (n + 1)).
Proof.
  intros. unfold add_char. simpl. rewrite (proj2 (N.leb_gt _ _)) by assumption. reflexivity.
Qed.

Lemma add_char_ok' : forall c s s0 acc buf n,
  (n < field_limit)%N ->
  add_char c s (mkParser s0 acc buf n) = Ok (mkParser s acc (c :: buf) (n + 1)).
Proof.
  intros. unfold add_char. simpl. rewrite (proj2 (N.leb_gt _ _)) by assumption. reflexivity.
Qed.

(** One character of a quoted field other than the quote: added to the
    field; the end-of-line markers the line splitting puts after a newline
    are ignored inside quotes. *)
Lemma quoted_char : forall c Z acc buf n,
  N.eqb c DQUOTE = false -> (n < field_limit)%N ->
  read_tokens (tok (c :: Z)) (mkParser IN_QUOTED_FIELD acc buf n) =
  read_tokens (tok Z) (mkParser IN_QUOTED_FIELD acc (c :: buf) (n + 1)).
Proof.
  intros c Z acc buf n Hq Hn.
  assert (Hs : step (mkParser IN_QUOTED_FIELD acc buf n) (Chr c) =
               Ok (mkParser IN_QUOTED_FIELD acc (c :: buf) (n + 1))).
  { unfold step. simpl. rewrite Hq. apply add_char_ok. assumption. }
  simpl tok.
  destruct (N.eqb c LF) eqn:ELF.
  - rewrite (read_tokens_step _ _ _ _ Hs). reflexivity.
  - destruct (N.eqb c CR) eqn:ECR.
    + destruct Z as [|d Z'].
      * rewrite (read_tokens_step _ _ _ _ Hs). reflexivity.
      * destruct (N.eqb d LF) eqn:EdLF.
        -- rewrite (read_tokens_step _ _ _ _ Hs). apply N.eqb_eq in EdLF. subst d. reflexivity.
        -- rewrite (read_tokens_step _ _ _ _ Hs). reflexivity.
    + apply read_tokens_step. exact Hs.
Qed.

Lemma quoted_body : forall f Y acc buf n,
  (n + N.of_nat (List.length f) <= field_limit)%N ->
  read_tokens (tok (double_quotes f ++ DQUOTE :: Y)) (mkParser IN_QUOTED_FIELD acc buf n) =
  read_tokens (tok Y)
    (mkParser QUOTE_IN_QUOTED_FIELD acc (rev f ++ buf) (n + N.of_nat (List.length f))).
Proof.
  induction f as [|c f IH]; intros Y acc buf n Hn.
  - simpl double_quotes. simpl app. rewrite tok_plain by reflexivity.
    apply read_tokens_step. simpl. rewrite N.add_0_r. reflexivity.
  - assert (Hlt : (n < field_limit)%N) by (simpl List.length in Hn; lia).
    simpl double_quotes.
    destruct (N.eqb c DQUOTE) eqn:Eq.
    + apply N.eqb_eq in Eq. subst c. simpl app.
      rewrite tok_plain by reflexivity. rewrite tok_plain by reflexivity.
      rewrite (read_tokens_step _ _ _ (mkParser QUOTE_IN_QUOTED_FIELD acc buf n)) by reflexivity.
      rewrite (read_tokens_step _ _ _ (mkParser IN_QUOTED_FIELD acc (DQUOTE :: buf) (n + 1)))
        by (unfold step; simpl; apply add_char_ok'; assumption).
      rewrite IH by (simpl List.length in Hn; lia).
      simpl rev. rewrite <- app_assoc. simpl app. do 2 f_equal. simpl List.length. lia.
    + simpl app. rewrite quoted_char by assumption.
      rewrite IH by (simpl List.length in Hn; lia).
      simpl rev. rewrite <- app_assoc. simpl app. do 2 f_equal. simpl List.length. lia.
Qed.

Lemma existsb_false_Forall : forall {A} (p : A -> bool) l,
  existsb p l = false -> Forall (fun x => p x = false) l.
Proof.
  induction l as [|x l IH]; intros H; constructor; simpl in H;
    apply orb_false_iff in H as [H1 H2]; auto.
Qed.

Lemma unquoted_body : forall f ts s acc buf n,
  s = START_FIELD \/ s = IN_FIELD ->
  Forall (fun c => plain_char c = true) f ->
  (n + N.of_nat (List.length f) <= field_limit)%N ->
  read_tokens (map Chr f ++ ts) (mkParser s acc buf n) =
  read_tokens ts (mkParser (match f with [] => s | _ => IN_FIELD end) acc (rev f ++ buf)
                           (n + N.of_nat (List.length f))).
Proof.
  induction f as [|c f IH]; intros ts s acc buf n Hs Hf Hn.
  - simpl. rewrite N.add_0_r. reflexivity.
  - inv Hf. unfold plain_char in H1. apply negb_true_iff in H1.
    apply orb_false_iff in H1 as [H1 Hnl]. apply orb_false_iff in H1 as [Hc Hq].
    assert (Hlt : (n < field_limit)%N) by (simpl List.length in Hn; lia).
    simpl map. simpl app.
    rewrite (read_tokens_step _ _ _ (mkParser IN_FIELD acc (c :: buf) (n + 1))).
    + rewrite IH by (auto || (simpl List.length in Hn; lia)).
      simpl rev. rewrite <- app_assoc. simpl app.
      destruct f; (f_equal; [f_equal; simpl List.length; lia]).
    + destruct Hs as [-> | ->]; unfold step; simpl.
      * unfold start_field. rewrite Hnl, Hq, Hc. apply add_char_ok'. assumption.
      * rewrite Hnl, Hc. apply add_char_ok'. assumption.
Qed.

Lemma csv_field_read : forall f c Y acc,
  (N.of_nat (List.length f) <= field_limit)%N ->
  exists s, after_field s /\
    read_tokens (tok (csv_field f ++ c :: Y)) (mkParser START_FIELD acc [] 0) =
    read_tokens (tok (c :: Y)) (mkParser s acc (rev f) (N.of_nat (List.length f))).
Proof.
  intros f c Y acc Hf. unfold csv_field.
  destruct (needs_quotes f) eqn:Eq.
  - exists QUOTE_IN_QUOTED_FIELD. split; [right; right; reflexivity|].
    rewrite <- app_comm_cons, <- app_assoc.
    change ([DQUOTE] ++ c :: Y) with (DQUOTE :: c :: Y).
    rewrite tok_plain by reflexivity.
    rewrite (read_tokens_step _ _ _ (mkParser IN_QUOTED_FIELD acc [] 0)) by reflexivity.
    rewrite quoted_body by (simpl; lia).
    rewrite app_nil_r. reflexivity.
  - apply existsb_false_Forall in Eq.
    assert (Hp : Forall (fun c => plain_char c = true) f).
    { eapply Forall_impl; [|exact Eq]. intros x Hx. unfold plain_char.
      apply orb_false_iff in Hx as [Hx Hnl]. apply orb_false_iff in Hx as [Hc Hq].
      rewrite Hc, Hq, Hnl. reflexivity. }
    assert (Hn : Forall (fun c => is_nl c = false) f).
    { eapply Forall_impl; [|exact Eq]. intros x Hx.
      apply orb_false_iff in Hx as [_ Hnl]. exact Hnl. }
    rewrite tok_app_plain by exact Hn.
    rewrite unquoted_body by (auto || (simpl; lia)).
    exists (match f with [] => START_FIELD | _ => IN_FIELD end).
    split; [destruct f; [left | right; left]; reflexivity|].
    rewrite app_nil_r. reflexivity.
Qed.

Lemma after_field_comma : forall s Y acc f n,
  after_field s ->
  read_tokens (tok (COMMA :: Y)) (mkParser s acc (rev f) n) =
  read_tokens (tok Y) (mkParser START_FIELD (f :: acc) [] 0).
Proof.
  intros s Y acc f n Hs. rewrite tok_plain by reflexivity.
  apply read_tokens_step.
  destruct Hs as [-> | [-> | ->]]; unfold step; simpl; unfold save_field; simpl;
    rewrite rev_involutive; reflexivity.
Qed.

Lemma after_field_crlf : forall s Y acc f n,
  after_field s ->
  read_tokens (tok (CR :: LF :: Y)) (mkParser s acc (rev f) n) =
  cons_ok (rev (f :: acc)) (read_tokens (tok Y) parser_init).
Proof.
  intros s Y acc f n Hs. rewrite tok_crlf.
  rewrite (read_tokens_step _ _ _ (mkParser EAT_CRNL (f :: acc) [] 0)).
  - reflexivity.
  - destruct Hs as [-> | [-> | ->]]; unfold step; simpl; unfold save_field; simpl;
      rewrite rev_involutive; reflexivity.
Qed.

Lemma join_fields_read : forall fs Y acc,
  fs <> [] -> Forall fits fs ->
  read_tokens (tok (join_fields fs ++ CR :: LF :: Y)) (mkParser START_FIELD acc [] 0) =
  cons_ok (rev acc ++ fs) (read_tokens (tok Y) parser_init).
Proof.
  induction fs as [|f fs IH]; intros Y acc Hne Hfs; [congruence|].
  inv Hfs. destruct fs as [|f2 fs].
  - simpl join_fields.
    destruct (csv_field_read f CR (LF :: Y) acc H1) as [s [Hs ->]].
    apply after_field_crlf. exact Hs.
  - change (join_fields (f :: f2 :: fs)) with (csv_field f ++ COMMA :: join_fields (f2 :: fs)).
    rewrite <- app_assoc, <- app_comm_cons.
    destruct (csv_field_read f COMMA (join_fields (f2 :: fs) ++ CR :: LF :: Y) acc H1)
      as [s [Hs ->]].
    rewrite after_field_comma by exact Hs.
    rewrite IH by (congruence || assumption).
    simpl rev. rewrite <- app_assoc. reflexivity.
Qed.

Lemma first_char_plain : forall X,
  match X with c :: _ => is_nl c = false | [] => False end ->
  read_tokens (tok X) parser_init = read_tokens (tok X) (mkParser START_FIELD [] [] 0).
Proof.
  intros [|c X] H; [contradiction|].
  rewrite tok_plain by exact H. rewrite !read_tokens_chr.
  unfold step. simpl pst. rewrite H. reflexivity.
Qed.

Lemma join_fields_head : forall f f2 fs Z,
  match join_fields (f :: f2 :: fs) ++ Z with c :: _ => is_nl c = false | [] => False end.
Proof.
  intros f f2 fs Z. change (join_fields (f :: f2 :: fs)) with (csv_field f ++ COMMA :: join_fields (f2 :: fs)).
  unfold csv_field. destruct (needs_quotes f) eqn:Eq; [reflexivity|].
  destruct f as [|c f]; [reflexivity|].
  simpl in Eq. apply orb_false_iff in Eq as [Eq _]. apply orb_false_iff in Eq as [_ Eq].
  exact Eq.
Qed.

Lemma writerows_read : forall rows,
  Forall (fun r => 2 <= List.length r /\ Forall fits r) rows ->
  read_tokens (tok (List.concat (map csv_writerow rows))) parser_init = Ok rows.
Proof.
  induction rows as [|r rows IH]; intros H; [reflexivity|].
  inv H. destruct H2 as [Hlen Hfits].
  destruct r as [|f [|f2 fs]]; simpl in Hlen; try lia.
  cbn [map List.concat].
  replace (csv_writerow (f :: f2 :: fs)) with (join_fields (f :: f2 :: fs) ++ [CR; LF])
    by (destruct f; reflexivity).
  rewrite <- app_assoc. cbn [app].
  rewrite first_char_plain by apply join_fields_head.
  rewrite join_fields_read by (congruence || assumption).
  rewrite IH by assumption. reflexivity.
Qed.

Lemma csv_writerow_ends : forall r, exists X, csv_writerow r = X ++ [LF].
Proof.
  intros r.
  assert (G : forall Y, exists X, Y ++ [CR; LF] = X ++ [LF])
    by (intros Y; exists (Y ++ [CR]); rewrite <- app_assoc; reflexivity).
  destruct r as [|[|c f] [|f2 fs]]; try apply G.
  exists [DQUOTE; DQUOTE; CR]. reflexivity.
Qed.

Lemma writerows_ends : forall rows, rows <> [] ->
  exists X, List.concat (map csv_writerow rows) = X ++ [LF].
Proof.
  induction rows as [|r rows IH]; intros H; [congruence|].
  cbn [map List.concat]. destruct rows as [|r2 rows].
  - destruct (csv_writerow_ends r) as [X ->]. exists X. apply app_nil_r.
  - destruct IH as [X HX]; [congruence|]. rewrite HX.
    exists (csv_writerow r ++ X). apply app_assoc.
Qed.

Lemma file_tokens_lf : forall X, file_tokens (X ++ [LF]) = tok (X ++ [LF]).
Proof.
  intros X. unfold file_tokens. rewrite last_last. destruct X; reflexivity.
Qed.

Lemma csv_read_writerows : forall rows, rows <> [] ->
  Forall (fun r => 2 <= List.length r /\ Forall fits r) rows ->
  csv_read (List.concat (map csv_writerow rows)) = Ok rows.
Proof.
  intros rows Hne H. unfold csv_read.
  destruct (writerows_ends rows Hne) as [X HX].
  rewrite HX, file_tokens_lf, <- HX. apply writerows_read. exact H.
Qed.

(** ** Saving and loading back *)

Lemma row_to_dict_row_of : forall e,
  row_to_dict fieldnames (row_of e) = map (fun n => (Some n, VStr (field_text e n))) fieldnames.
Proof. intros. reflexivity. Qed.

Lemma dict_get_fieldnames : forall (F : pystr -> pyval) n,
  In n fieldnames -> dict_get (map (fun n => (Some n, F n)) fieldnames) (Some n) = Some (F n).
Proof.
  intros F n Hin. repeat (destruct Hin as [<- | Hin]; [reflexivity|]). destruct Hin.
Qed.

Lemma tl_fieldnames_not_ID : forall n, In n (tl fieldnames) -> str_eqb n k_ID = false.
Proof.
  intros n Hin. repeat (destruct Hin as [<- | Hin]; [reflexivity|]). destruct Hin.
Qed.

Lemma record_field : forall e n,
  record_fits e -> In n (tl fieldnames) ->
  exists v, dict_get e (Some n) = Some (VStr v) /\ field_text e n = v /\ fits v.
Proof.
  intros e n [_ Hf] Hin. rewrite Forall_forall in Hf.
  destruct (Hf n Hin) as [v [Hv Hfv]]. exists v. unfold field_text. rewrite Hv. auto.
Qed.

Lemma dict_rows_nonempty : forall names rows,
  Forall (fun r => r <> []) rows -> dict_rows names rows = map (row_to_dict names) rows.
Proof.
  induction rows as [|r rows IH]; intros H; [reflexivity|].
  inv H. destruct r; [congruence|]. simpl. f_equal. auto.
Qed.

Lemma row_of_fits : forall pb j e,
  Forall record_fits pb -> fits (py_str_int (Z.of_nat (List.length pb))) ->
  nth_error pb j = Some e ->
  Forall fits (row_of (dict_set e (Some k_ID) (VInt (1 + Z.of_nat j)))).
Proof.
  intros pb j e Hpb HN Hj.
  assert (He : record_fits e) by (eapply Forall_nth_error; eassumption).
  assert (Hlt : j < List.length pb) by (apply nth_error_Some; congruence).
  unfold row_of. apply Forall_map. apply Forall_forall. intros n Hn.
  rewrite field_text_set_id.
  destruct (str_eqb n k_ID) eqn:Eid.
  - replace (1 + Z.of_nat j)%Z with (Z.of_nat (S j)) by lia.
    unfold fits in *. pose proof (py_str_int_length_mono (S j) (List.length pb)). lia.
  - destruct Hn as [<- | Hn]; [discriminate|].
    destruct (record_field e n He Hn) as [v [_ [-> Hv]]]. exact Hv.
Qed.

Lemma load_saved : forall pb,
  Forall record_fits pb ->
  fits (py_str_int (Z.of_nat (List.length pb))) ->
  load_phonebook (Some (List.concat (map csv_writerow (fieldnames :: map row_of (set_ids 1 pb))))) =
    Ok (map (fun e => row_to_dict fieldnames (row_of e)) (set_ids 1 pb)).
Proof.
  intros pb Hpb HN.
  - unfold load_phonebook. rewrite csv_read_writerows.
    + simpl dict_reader. rewrite dict_rows_nonempty.
      * rewrite map_map. reflexivity.
      * apply Forall_map. apply Forall_forall. intros e _. unfold row_of. destruct fieldnames eqn:E; discriminate.
    + discriminate.
    + constructor.
      * split; [simpl; lia|]. repeat constructor; unfold fits; vm_compute; discriminate.
      * apply Forall_map. apply Forall_forall. intros r Hr.
        apply In_nth_error in Hr as [j Hj].
        rewrite set_ids_nth in Hj.
        destruct (nth_error pb j) as [e|] eqn:Ej; [|discriminate].
        simpl in Hj. inv Hj. split.
        -- unfold row_of. rewrite length_map. simpl. lia.
        -- apply (row_of_fits pb j e); assumption.
Qed.

Lemma save_load_roundtrip : forall pb,
  Forall record_fits pb -> Forall entry_encodable pb ->
  fits (py_str_int (Z.of_nat (List.length pb))) ->
  save_phonebook pb =
    (set_ids 1 pb, List.concat (map csv_writerow (fieldnames :: map row_of (set_ids 1 pb))), None) /\
  load_phonebook (Some (List.concat (map csv_writerow (fieldnames :: map row_of (set_ids 1 pb))))) =
    Ok (map (fun e => row_to_dict fieldnames (row_of e)) (set_ids 1 pb)).
Proof.
  intros pb Hpb Hen HN. split.
  - unfold save_phonebook. rewrite save_rows_ok.
    + cbn [map List.concat]. rewrite map_map. reflexivity.
    + eapply Forall_impl; [|exact Hpb]. intros e [Hk _]. exact Hk.
    + exact Hen.
  - apply load_saved; assumption.
Qed.

Lemma loaded_id : forall e z,
  dict_get (map (fun n => (Some n, VStr (field_text (dict_set e (Some k_ID) (VInt z)) n))) fieldnames)
           (Some k_ID) = Some (VStr (py_str_int z)).
Proof.
  intros. rewrite dict_get_fieldnames by (left; reflexivity).
  rewrite field_text_set_id. reflexivity.
Qed.

Lemma lstrip_letters : forall m, lstrip (repeat 97%N (S m)) = repeat 97%N (S m).
Proof. intros m. reflexivity. Qed.

Lemma strip_long_org : strip long_org = long_org.
Proof.
  unfold strip, rstrip, long_org. generalize (N.to_nat field_limit). intros m.
  rewrite lstrip_letters, rev_repeat, lstrip_letters. apply rev_repeat.
Qed.

Lemma dict_set_str : forall d k t,
  forallb is_str (dict_values d) = true -> forallb is_str (dict_values (dict_set d k (VStr t))) = true.
Proof.
  induction d as [|[k' v'] d IH]; intros k t H; [reflexivity|].
  simpl in H. apply andb_true_iff in H as [H1 H2].
  simpl. destruct (key_eqb k k'); simpl.
  - exact H2.
  - rewrite H1. apply IH. exact H2.
Qed.

Lemma fold_dict_set_str : forall l d,
  forallb is_str (dict_values d) = true ->
  forallb is_str (dict_values
    (fold_left (fun acc kv => dict_set acc (Some (fst kv)) (VStr (snd kv))) l d)) = true.
Proof.
  induction l as [|kv l IH]; intros d H; simpl; auto. apply IH, dict_set_str, H.
Qed.

Lemma row_to_dict_str : forall names row,
  List.length row = List.length names -> forallb is_str (dict_values (row_to_dict names row)) = true.
Proof.
  intros names row H. unfold row_to_dict. cbv zeta. rewrite H, Nat.ltb_irrefl.
  apply fold_dict_set_str. reflexivity.
Qed.

Lemma dict_rows_str : forall names rows,
  Forall (fun r => List.length r = List.length names) rows ->
  Forall (fun d => forallb is_str (dict_values d) = true) (dict_rows names rows).
Proof.
  induction rows as [|r rows IH]; intros H; simpl; [constructor|].
  inv H. destruct r as [|c r].
  - apply IH. assumption.
  - constructor; [apply row_to_dict_str; assumption | apply IH; assumption].
Qed.

Ltac sample_fits :=
  repeat (constructor || (eexists; split; [reflexivity | unfold fits; vm_compute; discriminate]));
  unfold fits; vm_compute; discriminate.

(** C1 (amended). Saving records whose keys are header names and whose six
    contact fields are strings of at most [field_size_limit] characters
    (with the decimal form of their count within the limit too), none of
    whose values holds a lone surrogate, succeeds,
    and loading the file back yields as many records, in the same order:
    record [i] has exactly the seven header keys, the id [str(i+1)] (the
    decimal string, see C10) and the same values as the saved record under
    the six other keys. *)
Theorem save_then_load : forall pb,
  Forall record_fits pb -> Forall entry_encodable pb ->
  fits (py_str_int (Z.of_nat (List.length pb))) ->
  snd (save_phonebook pb) = None /\
  exists loaded,
    load_phonebook (Some (snd (fst (save_phonebook pb)))) = Ok loaded /\
    List.length loaded = List.length pb /\
    forall i e, nth_error pb i = Some e ->
      exists d, nth_error loaded i = Some d /\
        dict_keys d = map Some fieldnames /\
        dict_get d (Some k_ID) = Some (VStr (py_str_int (Z.of_nat (S i)))) /\
        forall n, In n (tl fieldnames) -> dict_get d (Some n) = dict_get e (Some n).
Proof.
  intros pb Hpb Hen HN.
  destruct (save_load_roundtrip pb Hpb Hen HN) as [Hs Hl]. rewrite Hs. cbn [fst snd].
  split; [reflexivity|].
  eexists. split; [exact Hl|]. split.
  - rewrite length_map, set_ids_length. reflexivity.
  - intros i e Hi. rewrite nth_error_map, set_ids_nth, Hi. cbn [option_map].
    eexists. split; [reflexivity|]. rewrite row_to_dict_row_of. split; [|split].
    + unfold dict_keys. rewrite map_map. reflexivity.
    + rewrite loaded_id. do 3 f_equal. lia.
    + intros n Hn. rewrite dict_get_fieldnames by (right; exact Hn).
      rewrite field_text_set_id, tl_fieldnames_not_ID by exact Hn.
      assert (He : record_fits e) by (eapply Forall_nth_error; eassumption).
      destruct (record_field e n He Hn) as [v [Hv [-> _]]]. rewrite Hv. reflexivity.
Qed.

Lemma save_then_load_witness :
  Forall record_fits [c_ivanov; c_petrov] /\ Forall entry_encodable [c_ivanov; c_petrov] /\
  fits (py_str_int (Z.of_nat (List.length [c_ivanov; c_petrov]))) /\
  (snd (save_phonebook [c_ivanov; c_petrov]) = None /\
   exists loaded,
     load_phonebook (Some (snd (fst (save_phonebook [c_ivanov; c_petrov])))) = Ok loaded /\
     List.length loaded = List.length [c_ivanov; c_petrov] /\
     forall i e, nth_error [c_ivanov; c_petrov] i = Some e ->
       exists d, nth_error loaded i = Some d /\
         dict_keys d = map Some fieldnames /\
         dict_get d (Some k_ID) = Some (VStr (py_str_int (Z.of_nat (S i)))) /\
         forall n, In n (tl fieldnames) -> dict_get d (Some n) = dict_get e (Some n)).
Proof.
  assert (H1 : Forall record_fits [c_ivanov; c_petrov]) by sample_fits.
  assert (H0 : Forall entry_encodable [c_ivanov; c_petrov]) by (repeat constructor).
  assert (H2 : fits (py_str_int (Z.of_nat (List.length [c_ivanov; c_petrov]))))
    by (unfold fits; vm_compute; discriminate).
  split; [exact H1|]. split; [exact H0|]. split; [exact H2|].
  apply (save_then_load [c_ivanov; c_petrov] H1 H0 H2).
Defined.

(** C1, counterexample. An organisation name of 131073 letters passes
    [validate_string_input] and [save_phonebook] writes the record without
    error, but [load_phonebook] then raises [csv.Error] (field larger than
    field limit): the records do not come back. *)
Lemma save_load_long_field :
  validate_string_input long_org k_Organization = Ok long_org /\
  snd (save_phonebook [c_long]) = None /\
  load_phonebook (Some (snd (fst (save_phonebook [c_long])))) = Err (CsvError FieldLimitExceeded).
Proof.
  split; [|split].
  - unfold validate_string_input. rewrite strip_long_org. reflexivity.
  - vm_compute. reflexivity.
  - vm_compute. reflexivity.
Qed.

(** C10 fails on the code: [load_phonebook] returns the records of
    [csv.DictReader] as they are, although it is declared to return
    [List[Dict[str, str]]]. A data row with fewer fields than the header
    loads with the value [None] for the missing fields; a row with more
    fields loads with the list of the extra fields under the key [None]. *)
Theorem load_non_string_values :
  load_phonebook (Some short_row_file) =
    Ok [[(Some k_ID, VStr (utf8 "1")); (Some k_LastName, VNone)]] /\
  load_phonebook (Some long_row_file) =
    Ok [[(Some k_ID, VStr (utf8 "1")); (Some k_LastName, VStr (utf8 "Ivanov"));
         (None, VList [utf8 "extra"])]].
Proof. split; vm_compute; reflexivity. Qed.

(** ** Further properties of the code *)

(** *** The CSV writer and reader *)

Lemma join_fields_head2 : forall f fs Z,
  f <> [] \/ fs <> [] ->
  match join_fields (f :: fs) ++ Z with c :: _ => is_nl c = false | [] => False end.
Proof.
  intros f [|f2 fs] Z H.
  - destruct H as [H|H]; [|congruence].
    simpl join_fields. unfold csv_field. destruct (needs_quotes f) eqn:Eq; [reflexivity|].
    destruct f as [|c f]; [congruence|].
    simpl in Eq. apply orb_false_iff in Eq as [Eq _]. apply orb_false_iff in Eq as [_ Eq].
    exact Eq.
  - apply join_fields_head.
Qed.

Lemma writerow_read : forall r Y,
  Forall fits r ->
  read_tokens (tok (csv_writerow r ++ Y)) parser_init = cons_ok r (read_tokens (tok Y) parser_init).
Proof.
  intros r Y Hr. destruct r as [|f fs]; [reflexivity|].
  assert (Hgen : f <> [] \/ fs <> [] ->
          read_tokens (tok (csv_writerow (f :: fs) ++ Y)) parser_init =
          cons_ok (f :: fs) (read_tokens (tok Y) parser_init)).
  { intros Hne.
    replace (csv_writerow (f :: fs)) with (join_fields (f :: fs) ++ [CR; LF])
      by (destruct f, fs; try reflexivity; destruct Hne; congruence).
    rewrite <- app_assoc. cbn [app].
    rewrite first_char_plain by (apply join_fields_head2; exact Hne).
    rewrite join_fields_read by (congruence || assumption). reflexivity. }
  destruct f as [|c f]; [destruct fs as [|f2 fs]|].
  - reflexivity.
  - apply Hgen. right. congruence.
  - apply Hgen. left. congruence.
Qed.

Lemma writerows_read_all : forall rows,
  Forall (Forall fits) rows ->
  read_tokens (tok (List.concat (map csv_writerow rows))) parser_init = Ok rows.
Proof.
  induction rows as [|r rows IH]; intros H; [reflexivity|].
  inv H. cbn [map List.concat]. rewrite writerow_read by assumption.
  rewrite IH by assumption. reflexivity.
Qed.

(** [csv.reader] reads back exactly the rows [csv.writer] wrote, whatever
    commas, quotes or line breaks the fields hold, as long as every field
    is within the field size limit. *)
Theorem csv_write_read : forall rows,
  Forall (Forall fits) rows ->
  csv_read (List.concat (map csv_writerow rows)) = Ok rows.
Proof.
  intros rows H. destruct rows as [|r rows']; [reflexivity|].
  unfold csv_read. destruct (writerows_ends (r :: rows')) as [X HX]; [congruence|].
  rewrite HX, file_tokens_lf, <- HX. apply writerows_read_all. exact H.
Qed.

Lemma csv_write_read_witness :
  let rows := [[utf8 "a,b"; [DQUOTE] ++ utf8 "quoted" ++ [DQUOTE]]; []; [[]];
               [utf8 "two" ++ [CR; LF] ++ utf8 "lines"; utf8 ""; [CR]]] in
  Forall (Forall fits) rows /\ csv_read (List.concat (map csv_writerow rows)) = Ok rows.
Proof.
  intros rows.
  assert (H : Forall (Forall fits) rows)
    by (repeat constructor; unfold fits; vm_compute; discriminate).
  split; [exact H|]. apply (csv_write_read rows H).
Defined.

(** *** Saving what was loaded *)

Lemma row_of_reloaded : forall e idx,
  field_text e k_ID = py_str_int idx ->
  row_of (dict_set (row_to_dict fieldnames (row_of e)) (Some k_ID) (VInt idx)) = row_of e.
Proof.
  intros e idx Hid. rewrite row_to_dict_row_of. unfold row_of.
  apply map_ext_in. intros n Hn. rewrite field_text_set_id.
  destruct (str_eqb n k_ID) eqn:E.
  - apply str_eqb_eq in E. subst n. symmetry. exact Hid.
  - unfold field_text at 1. rewrite dict_get_fieldnames by exact Hn. reflexivity.
Qed.

Lemma reloaded_rows : forall pb idx,
  map row_of (set_ids idx (map (fun e => row_to_dict fieldnames (row_of e)) (set_ids idx pb))) =
  map row_of (set_ids idx pb).
Proof.
  induction pb as [|e pb IH]; intros idx; [reflexivity|].
  cbn [set_ids map]. rewrite IH. f_equal.
  apply row_of_reloaded. rewrite field_text_set_id. reflexivity.
Qed.

Lemma keys_ok_reloaded : forall e, keys_ok (row_to_dict fieldnames (row_of e)).
Proof. intros e. rewrite row_to_dict_row_of. reflexivity. Qed.

(** Saving the records that were just loaded from a saved file writes the
    same file again, without error. *)
Theorem save_load_save : forall pb,
  Forall record_fits pb ->
  fits (py_str_int (Z.of_nat (List.length pb))) ->
  exists loaded,
    load_phonebook (Some (snd (fst (save_phonebook pb)))) = Ok loaded /\
    snd (fst (save_phonebook loaded)) = snd (fst (save_phonebook pb)) /\
    snd (save_phonebook loaded) = None.
Proof.
  intros pb Hpb HN.
  assert (Hk : Forall keys_ok pb) by (eapply Forall_impl; [|exact Hpb]; intros e [He _]; exact He).
  destruct (save_rows_prefix pb 1 Hk) as [pre [rest [Heq [Hrows Hout]]]].
  assert (Htext : snd (fst (save_phonebook pb)) =
                  List.concat (map csv_writerow (fieldnames :: map row_of (set_ids 1 pre)))).
  { unfold save_phonebook. revert Hout. destruct (save_rows 1 pb) as [[a b] c].
    cbn [fst snd]. intros ->. cbn [map List.concat]. rewrite map_map. reflexivity. }
  rewrite Heq in Hpb. apply Forall_app in Hpb as [Hpre _].
  assert (HNpre : fits (py_str_int (Z.of_nat (List.length pre)))).
  { unfold fits in *. rewrite Heq, length_app in HN.
    pose proof (py_str_int_length_mono (List.length pre) (List.length pre + List.length rest)). lia. }
  rewrite Htext. eexists. split; [apply load_saved; assumption|].
  unfold save_phonebook. rewrite save_rows_ok_rows.
  - cbn [fst snd]. split; [|reflexivity].
    cbn [map List.concat]. f_equal. rewrite <- (map_map row_of csv_writerow).
    rewrite reloaded_rows. rewrite map_map. reflexivity.
  - apply Forall_map. apply Forall_forall. intros e _. apply keys_ok_reloaded.
  - apply (proj1 (Forall_map row_of (fun r => utf8_encodable (csv_writerow r) = true) _)).
    rewrite reloaded_rows. apply Forall_map. exact Hrows.
Qed.

Lemma save_load_save_witness :
  Forall record_fits [c_ivanov; c_petrov] /\
  fits (py_str_int (Z.of_nat (List.length [c_ivanov; c_petrov]))) /\
  exists loaded,
    load_phonebook (Some (snd (fst (save_phonebook [c_ivanov; c_petrov])))) = Ok loaded /\
    snd (fst (save_phonebook loaded)) = snd (fst (save_phonebook [c_ivanov; c_petrov])) /\
    snd (save_phonebook loaded) = None.
Proof.
  assert (H1 : Forall record_fits [c_ivanov; c_petrov]) by sample_fits.
  assert (H2 : fits (py_str_int (Z.of_nat (List.length [c_ivanov; c_petrov]))))
    by (unfold fits; vm_compute; discriminate).
  split; [exact H1|]. split; [exact H2|].
  apply (save_load_save _ H1 H2).
Defined.

(** *** Records with a key outside the header *)

Lemma keys_ok_set_inv : forall e k v, keys_ok (dict_set e k v) -> keys_ok e.
Proof.
  unfold keys_ok. intros e k v H. rewrite dict_keys_set in H.
  destruct (existsb _ _); [exact H|]. rewrite forallb_app in H.
  apply andb_true_iff in H as [H _]. exact H.
Qed.

Lemma dict_to_list_bad : forall e v,
  ~ keys_ok e -> dict_to_list fieldnames (dict_set e (Some k_ID) v) = Err DictWriterExtraFields.
Proof.
  intros e v H. unfold dict_to_list. rewrite existsb_negb.
  destruct (forallb _ _) eqn:E; [|reflexivity].
  exfalso. apply H. apply (keys_ok_set_inv e (Some k_ID) v). exact E.
Qed.

Lemma save_rows_bad : forall pre bad post idx,
  Forall keys_ok pre -> Forall entry_encodable pre -> ~ keys_ok bad ->
  save_rows idx (pre ++ bad :: post) =
    (set_ids idx pre ++ dict_set bad (Some k_ID) (VInt (idx + Z.of_nat (List.length pre))) :: post,
     List.concat (map (fun e => csv_writerow (row_of e)) (set_ids idx pre)),
     Some DictWriterExtraFields).
Proof.
  induction pre as [|e pre IH]; intros bad post idx Hpre Henc Hbad.
  - simpl. rewrite dict_to_list_bad by exact Hbad. rewrite Z.add_0_r. reflexivity.
  - inv Hpre. inv Henc. cbn [app save_rows].
    rewrite dict_to_list_ok by (apply keys_ok_set_id; assumption).
    rewrite row_encodable by assumption.
    rewrite IH by assumption. cbn [set_ids map List.concat app].
    replace (idx + 1 + Z.of_nat (List.length pre))%Z
      with (idx + Z.of_nat (List.length (e :: pre)))%Z by (simpl List.length; lia).
    reflexivity.
Qed.

Lemma save_phonebook_bad : forall pre bad post,
  Forall keys_ok pre -> Forall entry_encodable pre -> ~ keys_ok bad ->
  save_phonebook (pre ++ bad :: post) =
    (set_ids 1 pre ++ dict_set bad (Some k_ID) (VInt (1 + Z.of_nat (List.length pre))) :: post,
     List.concat (map csv_writerow (fieldnames :: map row_of (set_ids 1 pre))),
     Some DictWriterExtraFields).
Proof.
  intros. unfold save_phonebook. rewrite save_rows_bad by assumption.
  cbn [map List.concat]. rewrite map_map. reflexivity.
Qed.

(** [save_phonebook] stops at the first record with a key outside the
    header, when the records before it have only header keys and no lone
    surrogate: [csv.DictWriter] raises [ValueError] there, the file holds
    the header and the rows of the records before it only, these records
    and the failing one have their ids set, the records after it are left
    as they were. *)
Theorem save_phonebook_stops_at_foreign_key : forall pre bad post,
  Forall keys_ok pre -> Forall entry_encodable pre -> ~ keys_ok bad ->
  save_phonebook (pre ++ bad :: post) =
    (set_ids 1 pre ++ dict_set bad (Some k_ID) (VInt (1 + Z.of_nat (List.length pre))) :: post,
     List.concat (map csv_writerow (fieldnames :: map row_of (set_ids 1 pre))),
     Some DictWriterExtraFields).
Proof. exact save_phonebook_bad. Qed.

Lemma save_phonebook_stops_at_foreign_key_witness :
  Forall keys_ok [c_ivanov] /\ Forall entry_encodable [c_ivanov] /\ ~ keys_ok (dict_set c_petrov None (VList [utf8 "x"])) /\
  save_phonebook ([c_ivanov] ++ dict_set c_petrov None (VList [utf8 "x"]) :: [c_ivanov]) =
    (set_ids 1 [c_ivanov] ++
       dict_set (dict_set c_petrov None (VList [utf8 "x"])) (Some k_ID)
                (VInt (1 + Z.of_nat (List.length [c_ivanov]))) :: [c_ivanov],
     List.concat (map csv_writerow (fieldnames :: map row_of (set_ids 1 [c_ivanov]))),
     Some DictWriterExtraFields).
Proof.
  assert (H1 : Forall keys_ok [c_ivanov]) by (repeat constructor).
  assert (H0 : Forall entry_encodable [c_ivanov]) by (repeat constructor).
  assert (H2 : ~ keys_ok (dict_set c_petrov None (VList [utf8 "x"])))
    by (unfold keys_ok; vm_compute; discriminate).
  split; [exact H1|]. split; [exact H0|]. split; [exact H2|].
  apply (save_phonebook_stops_at_foreign_key _ _ _ H1 H0 H2).
Defined.

Lemma firstn_length_app : forall {A} (l1 l2 : list A), firstn (List.length l1) (l1 ++ l2) = l1.
Proof. induction l1 as [|x l1 IH]; intros; simpl; [reflexivity|]. rewrite IH. reflexivity. Qed.

(** Adding a record to a phonebook that holds a record with a key outside
    the header, the records before it having only header keys and no lone
    surrogate, raises [ValueError] in the save ([add_entry] does not catch
    it, so the program stops): the file is left with the header and the
    records before the first such record only. *)
Theorem add_entry_foreign_key : forall s pre bad post contact_data,
  phonebook s = pre ++ bad :: post ->
  Forall keys_ok pre -> Forall entry_encodable pre -> ~ keys_ok bad -> contact_data <> [] ->
  add_entry s contact_data =
    (mkStore (set_ids 1 pre ++
                dict_set bad (Some k_ID) (VInt (1 + Z.of_nat (List.length pre))) ::
                post ++ [contact_data])
             (Some (List.concat (map csv_writerow (fieldnames :: map row_of (set_ids 1 pre))))),
     Raised DictWriterExtraFields).
Proof.
  intros s pre bad post cd Hs Hpre Henc Hbad Hcd. unfold add_entry.
  destruct cd as [|kv cd]; [congruence|]. cbn [is_empty negb].
  unfold save_store. rewrite Hs, <- app_assoc. cbn [app].
  rewrite save_phonebook_bad by assumption. reflexivity.
Qed.

Lemma add_entry_foreign_key_witness :
  mkStore ([c_ivanov] ++ dict_set c_petrov None (VList [utf8 "x"]) :: []) None =
    mkStore ([c_ivanov] ++ dict_set c_petrov None (VList [utf8 "x"]) :: []) None /\
  Forall keys_ok [c_ivanov] /\ Forall entry_encodable [c_ivanov] /\
  ~ keys_ok (dict_set c_petrov None (VList [utf8 "x"])) /\
  c_ivanov <> [] /\
  add_entry (mkStore ([c_ivanov] ++ dict_set c_petrov None (VList [utf8 "x"]) :: []) None) c_ivanov =
    (mkStore (set_ids 1 [c_ivanov] ++
                dict_set (dict_set c_petrov None (VList [utf8 "x"])) (Some k_ID)
                  (VInt (1 + Z.of_nat (List.length [c_ivanov]))) :: [] ++ [c_ivanov])
             (Some (List.concat (map csv_writerow (fieldnames :: map row_of (set_ids 1 [c_ivanov]))))),
     Raised DictWriterExtraFields).
Proof.
  assert (H1 : Forall keys_ok [c_ivanov]) by (repeat constructor).
  assert (H2 : ~ keys_ok (dict_set c_petrov None (VList [utf8 "x"])))
    by (unfold keys_ok; vm_compute; discriminate).
  assert (H3 : c_ivanov <> []) by discriminate.
  assert (H0 : Forall entry_encodable [c_ivanov]) by (repeat constructor).
  split; [reflexivity|]. split; [exact H1|]. split; [exact H0|]. split; [exact H2|].
  split; [exact H3|].
  apply (add_entry_foreign_key
           (mkStore ([c_ivanov] ++ dict_set c_petrov None (VList [utf8 "x"]) :: []) None)
           _ _ _ _ eq_refl H1 H0 H2 H3).
Defined.

Lemma bad_update : forall cd e, ~ keys_ok e -> ~ keys_ok (dict_update e cd).
Proof.
  unfold dict_update. induction cd as [|[k v] cd IH]; intros e He; [exact He|].
  simpl. apply IH. intros H. apply He. eapply keys_ok_set_inv. exact H.
Qed.

Lemma list_set_app : forall {A} (l1 l2 : list A) i x,
  list_set (l1 ++ l2) i x =
    if i <? List.length l1 then list_set l1 i x ++ l2 else l1 ++ list_set l2 (i - List.length l1) x.
Proof.
  induction l1 as [|y l1 IH]; intros l2 i x; [simpl; rewrite Nat.sub_0_r; reflexivity|].
  destruct i as [|i]; [reflexivity|]. simpl. rewrite IH.
  change (S i <? S (List.length l1)) with (i <? List.length l1).
  destruct (i <? List.length l1); reflexivity.
Qed.

(** With a record whose keys are not all header names in the phonebook,
    the records before it having only header keys and no lone surrogate,
    every edit with non-empty data (whose keys are header names, as typed
    in, and whose values hold no lone surrogate) fails in the save;
    [edit_entry] catches the [ValueError], but the file is left with the
    header and the records before the first such record only. *)
Theorem edit_entry_foreign_key : forall s pre bad post entry_idx contact_data,
  phonebook s = pre ++ bad :: post ->
  Forall keys_ok pre -> Forall entry_encodable pre -> ~ keys_ok bad ->
  keys_ok contact_data -> entry_encodable contact_data -> contact_data <> [] ->
  (1 <= entry_idx <= Z.of_nat (List.length (phonebook s)))%Z ->
  snd (edit_entry s entry_idx contact_data) = Raised DictWriterExtraFields /\
  file (fst (edit_entry s entry_idx contact_data)) =
    Some (List.concat (map csv_writerow
      (fieldnames :: map row_of
         (firstn (List.length pre) (phonebook (fst (edit_entry s entry_idx contact_data))))))).
Proof.
  intros s pre bad post idx cd Hs Hpre Henc Hbad Hcd Hecd Hne Hidx. unfold edit_entry.
  rewrite (proj2 (andb_true_iff _ _)) by (split; [apply Z.leb_le | apply Z.ltb_lt]; lia).
  set (i := Z.to_nat (idx - 1)).
  assert (Hi : i < List.length (phonebook s)) by (unfold i; lia).
  destruct (nth_error (phonebook s) i) as [entry|] eqn:He;
    [|apply nth_error_None in He; lia].
  destruct cd as [|kv cd']; [congruence|]. cbn [is_empty negb].
  set (cd := kv :: cd') in *.
  unfold save_store. rewrite Hs in *. rewrite list_set_app.
  destruct (i <? List.length pre) eqn:Ei.
  - apply Nat.ltb_lt in Ei.
    rewrite nth_error_app1 in He by exact Ei.
    assert (Hpre' : Forall keys_ok (list_set pre i (dict_update entry cd))).
    { apply Forall_list_set; [exact Hpre|]. apply keys_ok_update; [|exact Hcd].
      eapply Forall_nth_error; eassumption. }
    assert (Henc' : Forall entry_encodable (list_set pre i (dict_update entry cd))).
    { apply Forall_list_set; [exact Henc|]. apply entry_encodable_update; [|exact Hecd].
      eapply Forall_nth_error; eassumption. }
    rewrite save_phonebook_bad by assumption. cbn [fst snd file phonebook].
    split; [reflexivity|].
    rewrite <- (list_set_length pre i (dict_update entry cd)), <- (set_ids_length _ 1).
    rewrite firstn_length_app. reflexivity.
  - apply Nat.ltb_ge in Ei.
    rewrite nth_error_app2 in He by exact Ei.
    destruct (i - List.length pre) as [|j] eqn:Ej.
    + simpl in He. inv He. cbn [list_set].
      rewrite save_phonebook_bad by (assumption || apply bad_update; assumption).
      cbn [fst snd file phonebook]. split; [reflexivity|].
      rewrite <- (set_ids_length pre 1), firstn_length_app. reflexivity.
    + cbn [list_set].
      rewrite save_phonebook_bad by assumption.
      cbn [fst snd file phonebook]. split; [reflexivity|].
      rewrite <- (set_ids_length pre 1), firstn_length_app. reflexivity.
Qed.

Lemma edit_entry_foreign_key_witness :
  let s := mkStore ([c_ivanov] ++ dict_set c_petrov None (VList [utf8 "x"]) :: []) None in
  phonebook s = [c_ivanov] ++ dict_set c_petrov None (VList [utf8 "x"]) :: [] /\
  Forall keys_ok [c_ivanov] /\ Forall entry_encodable [c_ivanov] /\
  ~ keys_ok (dict_set c_petrov None (VList [utf8 "x"])) /\
  keys_ok c_petrov /\ entry_encodable c_petrov /\ c_petrov <> [] /\
  (1 <= 1 <= Z.of_nat (List.length (phonebook s)))%Z /\
  snd (edit_entry s 1 c_petrov) = Raised DictWriterExtraFields /\
  file (fst (edit_entry s 1 c_petrov)) =
    Some (List.concat (map csv_writerow
      (fieldnames :: map row_of
         (firstn (List.length [c_ivanov]) (phonebook (fst (edit_entry s 1 c_petrov))))))).
Proof.
  intros s.
  assert (H0 : phonebook s = [c_ivanov] ++ dict_set c_petrov None (VList [utf8 "x"]) :: [])
    by reflexivity.
  assert (H1 : Forall keys_ok [c_ivanov]) by (repeat constructor).
  assert (H2 : ~ keys_ok (dict_set c_petrov None (VList [utf8 "x"])))
    by (unfold keys_ok; vm_compute; discriminate).
  assert (H3 : keys_ok c_petrov) by reflexivity.
  assert (H4 : c_petrov <> []) by discriminate.
  assert (H5 : (1 <= 1 <= Z.of_nat (List.length (phonebook s)))%Z) by (simpl; lia).
  assert (H6 : Forall entry_encodable [c_ivanov]) by (repeat constructor).
  assert (H7 : entry_encodable c_petrov) by reflexivity.
  split; [exact H0|]. split; [exact H1|]. split; [exact H6|]. split; [exact H2|].
  split; [exact H3|]. split; [exact H7|]. split; [exact H4|]. split; [exact H5|].
  apply (edit_entry_foreign_key s _ _ _ 1 c_petrov H0 H1 H6 H2 H3 H7 H4 H5).
Defined.

Lemma dict_get_in_keys : forall d k v, dict_get d k = Some v -> In k (dict_keys d).
Proof.
  induction d as [|[k0 v0] d IH]; intros k v H; simpl in *; [discriminate|].
  destruct (key_eqb k k0) eqn:E.
  - left. symmetry. apply key_eqb_eq. exact E.
  - right. eapply IH. exact H.
Qed.

Lemma dict_rows_in : forall names rows row,
  In row rows -> row <> [] -> In (row_to_dict names row) (dict_rows names rows).
Proof.
  induction rows as [|r rows IH]; intros row Hin Hne; [destruct Hin|].
  destruct Hin as [-> | Hin].
  - destruct row; [congruence|]. left. reflexivity.
  - destruct r; simpl; [|right]; apply IH; assumption.
Qed.

(** A data row with more fields than the header loads as a record that
    maps the key [None] to the list of the extra fields; such a record
    has a key outside the header. *)
Theorem load_overlong_row : forall s header rows row,
  csv_read s = Ok (header :: rows) -> In row rows ->
  List.length header < List.length row ->
  exists pb, load_phonebook (Some s) = Ok pb /\
    In (row_to_dict header row) pb /\
    dict_get (row_to_dict header row) None = Some (VList (skipn (List.length header) row)) /\
    ~ keys_ok (row_to_dict header row).
Proof.
  intros s header rows row Hr Hin Hlen.
  assert (Hget : dict_get (row_to_dict header row) None =
                 Some (VList (skipn (List.length header) row))).
  { unfold row_to_dict. cbv zeta. rewrite (proj2 (Nat.ltb_lt _ _) Hlen).
    rewrite dict_get_set. reflexivity. }
  unfold load_phonebook. rewrite Hr. eexists. split; [reflexivity|].
  split; [|split; [exact Hget|]].
  - apply dict_rows_in; [exact Hin|]. intros ->. simpl in Hlen. lia.
  - intros Hok. apply dict_get_in_keys in Hget.
    unfold keys_ok in Hok. rewrite forallb_forall in Hok.
    specialize (Hok None Hget). discriminate.
Qed.

Lemma load_overlong_row_witness :
  let s := utf8 "ID,Фамилия" ++ [CR; LF] ++ utf8 "1,Ivanov,extra" ++ [CR; LF] in
  csv_read s = Ok ([k_ID; k_LastName] :: [[utf8 "1"; utf8 "Ivanov"; utf8 "extra"]]) /\
  In [utf8 "1"; utf8 "Ivanov"; utf8 "extra"] [[utf8 "1"; utf8 "Ivanov"; utf8 "extra"]] /\
  List.length [k_ID; k_LastName] < List.length [utf8 "1"; utf8 "Ivanov"; utf8 "extra"] /\
  exists pb, load_phonebook (Some s) = Ok pb /\
    In (row_to_dict [k_ID; k_LastName] [utf8 "1"; utf8 "Ivanov"; utf8 "extra"]) pb /\
    dict_get (row_to_dict [k_ID; k_LastName] [utf8 "1"; utf8 "Ivanov"; utf8 "extra"]) None =
      Some (VList (skipn (List.length [k_ID; k_LastName]) [utf8 "1"; utf8 "Ivanov"; utf8 "extra"])) /\
    ~ keys_ok (row_to_dict [k_ID; k_LastName] [utf8 "1"; utf8 "Ivanov"; utf8 "extra"]).
Proof.
  intros s.
  assert (H1 : csv_read s = Ok ([k_ID; k_LastName] :: [[utf8 "1"; utf8 "Ivanov"; utf8 "extra"]]))
    by (vm_compute; reflexivity).
  assert (H2 : In [utf8 "1"; utf8 "Ivanov"; utf8 "extra"] [[utf8 "1"; utf8 "Ivanov"; utf8 "extra"]])
    by (left; reflexivity).
  assert (H3 : List.length [k_ID; k_LastName] < List.length [utf8 "1"; utf8 "Ivanov"; utf8 "extra"])
    by (simpl; lia).
  split; [exact H1|]. split; [exact H2|]. split; [exact H3|].
  apply (load_overlong_row s _ _ _ H1 H2 H3).
Defined.

(** *** Pages *)

Lemma display_page_eq : forall {A} (l : list A) (page_num entries_per_page : Z),
  (1 <= page_num)%Z -> (0 <= entries_per_page)%Z ->
  display_page page_num entries_per_page l =
    firstn (Z.to_nat entries_per_page) (skipn (Z.to_nat ((page_num - 1) * entries_per_page)) l).
Proof.
  intros A l p n Hp Hn. unfold display_page, py_slice, py_index.
  remember (Z.of_nat (List.length l)) as len eqn:Hl.
  assert (H0 : (0 <= (p - 1) * n)%Z) by nia.
  rewrite (proj2 (Z.ltb_ge _ 0) H0).
  rewrite (proj2 (Z.ltb_ge _ 0)) by lia.
  destruct (Z.le_ge_cases len ((p - 1) * n)) as [Hge|Hlt].
  - rewrite (Z.min_r ((p - 1) * n)) by lia. rewrite Z.min_r by lia.
    rewrite !skipn_all2 by lia. rewrite !firstn_nil. reflexivity.
  - rewrite (Z.min_l ((p - 1) * n) len) by lia.
    rewrite <- (firstn_min_length (skipn _ l) (Z.to_nat n)), length_skipn.
    f_equal. lia.
Qed.

Lemma firstn_add : forall {A} a b (l : list A),
  firstn (a + b) l = firstn a l ++ firstn b (skipn a l).
Proof.
  induction a as [|a IH]; intros b l; [reflexivity|].
  destruct l as [|x l]; simpl; [rewrite firstn_nil; reflexivity|]. rewrite IH. reflexivity.
Qed.

(** Showing pages [1], [2], ..., [k] of [n] entries one after the other
    shows the first [k * n] entries, each once and in order; enough pages
    show the whole phonebook. *)
Theorem pages_cover : forall {A} (l : list A) (n : Z) (k : nat),
  (0 <= n)%Z ->
  pages k n l = firstn (k * Z.to_nat n) l /\
  (List.length l <= k * Z.to_nat n -> pages k n l = l).
Proof.
  intros A l n k Hn.
  assert (Hk : pages k n l = firstn (k * Z.to_nat n) l).
  { induction k as [|k IH]; [reflexivity|].
    unfold pages in *. rewrite seq_S, map_app, concat_app, IH. cbn [map List.concat].
    rewrite app_nil_r, display_page_eq by lia.
    replace (Z.to_nat ((Z.of_nat (1 + k) - 1) * n)) with (k * Z.to_nat n) by nia.
    rewrite <- firstn_add. f_equal. lia. }
  split; [exact Hk|]. intros Hlen. rewrite Hk. apply firstn_all2. exact Hlen.
Qed.

Lemma pages_cover_witness :
  (0 <= 2)%Z /\
  pages 3 2 [1;2;3;4;5]%nat = firstn (3 * Z.to_nat 2) [1;2;3;4;5]%nat /\
  (List.length [1;2;3;4;5]%nat <= 3 * Z.to_nat 2 -> pages 3 2 [1;2;3;4;5]%nat = [1;2;3;4;5]%nat).
Proof.
  assert (H : (0 <= 2)%Z) by lia. split; [exact H|].
  apply (pages_cover [1;2;3;4;5]%nat 2 3 H).
Defined.

(** *** Phone numbers *)

Lemma seq_lits : forall cs rs pos s r,
  seq_match (map RLit cs ++ rs) pos s = Some r <->
  exists s', s = cs ++ s' /\ seq_match rs (pos + List.length cs) s' = Some r.
Proof.
  induction cs as [|c cs IH]; intros rs pos s r.
  - simpl. rewrite Nat.add_0_r. split; [eauto | intros [s' [-> H]]; exact H].
  - cbn [map app seq_match]. destruct s as [|d s]; simpl rx_match.
    + split; [discriminate | intros [s' [H _]]; discriminate].
    + destruct (N.eqb d c) eqn:E.
      * apply N.eqb_eq in E. subst d. rewrite IH. simpl List.length.
        rewrite <- Nat.add_succ_comm.
        split; intros [s' [Hs H]]; exists s'; split; auto.
        -- rewrite Hs. reflexivity.
        -- inv Hs. reflexivity.
      * split; [discriminate|]. intros [s' [Hs _]]. inv Hs. rewrite N.eqb_refl in E. discriminate.
Qed.

Lemma rep_digit_S : forall n pos s,
  rx_match (RRep (S n) RDigit) pos s =
    match s with
    | d :: s' => if is_decimal d then rx_match (RRep n RDigit) (S pos) s' else None
    | [] => None
    end.
Proof. intros n pos [|d s]; [reflexivity|]. simpl. destruct (is_decimal d); reflexivity. Qed.

Lemma rep_digit : forall n pos s p s'',
  rx_match (RRep n RDigit) pos s = Some (p, s'') <->
  exists ds, List.length ds = n /\ forallb is_decimal ds = true /\ s = ds ++ s'' /\ p = pos + n.
Proof.
  induction n as [|n IH]; intros pos s p s''.
  - simpl. split.
    + intros H. inv H. exists []. repeat split. lia.
    + intros [ds [Hl [_ [Hs Hp]]]]. destruct ds; [|discriminate]. subst. rewrite Nat.add_0_r. reflexivity.
  - rewrite rep_digit_S. destruct s as [|d s].
    + split; [discriminate|]. intros [ds [Hl [_ [Hs _]]]]. destruct ds; discriminate.
    + destruct (is_decimal d) eqn:Ed.
      * rewrite IH. split.
        -- intros [ds [Hl [Hd [Hs Hp]]]]. exists (d :: ds). simpl. rewrite Ed, Hd, Hl, Hs.
           repeat split. lia.
        -- intros [ds [Hl [Hd [Hs Hp]]]]. destruct ds as [|d' ds]; [discriminate|].
           inv Hs. simpl in Hd, Hl. apply andb_true_iff in Hd as [_ Hd].
           exists ds. repeat split; auto. lia.
      * split; [discriminate|]. intros [ds [Hl [Hd [Hs _]]]]. destruct ds as [|d' ds]; [discriminate|].
        inv Hs. simpl in Hd. rewrite Ed in Hd. discriminate.
Qed.

Lemma app_eq_length : forall {A} (l1 r1 l2 r2 : list A),
  l1 ++ r1 = l2 ++ r2 -> List.length l1 = List.length l2 -> l1 = l2 /\ r1 = r2.
Proof.
  induction l1 as [|x l1 IH]; intros r1 [|y l2] r2 H Hl; try discriminate; auto.
  inv H. simpl in Hl. destruct (IH r1 l2 r2 H2) as [-> ->]; auto.
Qed.

Lemma seq_digits : forall n rs pos s r,
  seq_match (RRep n RDigit :: rs) pos s = Some r <->
  exists ds s', List.length ds = n /\ forallb is_decimal ds = true /\ s = ds ++ s' /\
    seq_match rs (pos + n) s' = Some r.
Proof.
  intros n rs pos s r. cbn [seq_match].
  destruct (rx_match (RRep n RDigit) pos s) as [[p s']|] eqn:E.
  - destruct (proj1 (rep_digit n pos s p s') E) as [ds [Hl [Hd [Hs Hp]]]]. subst p.
    split.
    + intros H. exists ds, s'. auto.
    + intros [ds' [s2 [Hl' [_ [Hs' H]]]]]. rewrite Hs in Hs'.
      destruct (app_eq_length _ _ _ _ Hs') as [_ ->]; [congruence|]. exact H.
  - split; [discriminate|]. intros [ds [s' [Hl [Hd [Hs _]]]]].
    assert (Hm : rx_match (RRep n RDigit) pos s = Some (pos + n, s'))
      by (apply rep_digit; exists ds; auto).
    congruence.
Qed.

Lemma seq_eol : forall pos s r,
  seq_match [REol] pos s = Some r <-> (s = [] \/ s = [LF]) /\ r = (pos, s).
Proof.
  intros pos [|c [|d s]] r; simpl.
  - split; [intros H; inv H; auto | intros [_ ->]; reflexivity].
  - destruct (N.eqb c LF) eqn:E.
    + apply N.eqb_eq in E. subst c. split; [intros H; inv H; auto | intros [_ ->]; reflexivity].
    + split; [discriminate|]. intros [[H|H] _]; inv H. rewrite N.eqb_refl in E. discriminate.
  - split; [discriminate|]. intros [[H|H] _]; discriminate.
Qed.

Lemma phone_match : forall s r,
  seq_match phone_pattern 0 s = Some r <->
  exists a b c d t,
    List.length a = 3 /\ List.length b = 3 /\ List.length c = 2 /\ List.length d = 2 /\
    forallb is_decimal (a ++ b ++ c ++ d) = true /\ (t = [] \/ t = [LF]) /\
    s = phone_text a b c d ++ t /\ r = (18, t).
Proof.
  intros s r. unfold phone_pattern, lit. cbn [app].
  change (seq_match (RBol :: ?rs) 0 s) with (seq_match rs 0 s).
  rewrite seq_lits. setoid_rewrite seq_digits. setoid_rewrite seq_lits.
  setoid_rewrite seq_digits. setoid_rewrite seq_lits. setoid_rewrite seq_digits.
  setoid_rewrite seq_lits. setoid_rewrite seq_digits. setoid_rewrite seq_eol.
  split.
  - intros H.
    repeat match goal with
           | H : exists _, _ |- _ => destruct H
           | H : _ /\ _ |- _ => destruct H
           end.
    subst. match goal with
           | |- context [utf8 "+7 (" ++ ?a ++ utf8 ") " ++ ?b ++ utf8 "-" ++ ?c ++ utf8 "-" ++ ?d ++ ?t] =>
               exists a, b, c, d, t
           end.
    repeat split; auto.
    + rewrite !forallb_app. repeat (apply andb_true_iff; split); assumption.
    + unfold phone_text. rewrite <- !app_assoc. reflexivity.
  - intros [a [b [c [d [t [Ha [Hb [Hc [Hd [Hdig [Ht [-> ->]]]]]]]]]]]].
    rewrite !forallb_app in Hdig.
    apply andb_true_iff in Hdig as [Hda Hdig]. apply andb_true_iff in Hdig as [Hdb Hdig].
    apply andb_true_iff in Hdig as [Hdc Hdd].
    unfold phone_text. rewrite <- !app_assoc.
    eexists. split; [reflexivity|]. exists a. eexists. split; [exact Ha|]. split; [exact Hda|].
    split; [reflexivity|]. eexists. split; [reflexivity|].
    exists b. eexists. split; [exact Hb|]. split; [exact Hdb|].
    split; [reflexivity|]. eexists. split; [reflexivity|].
    exists c. eexists. split; [exact Hc|]. split; [exact Hdc|].
    split; [reflexivity|]. eexists. split; [reflexivity|].
    exists d. eexists. split; [exact Hd|]. split; [exact Hdd|].
    split; [reflexivity|]. split; [exact Ht|]. reflexivity.
Qed.

(** [validate_phone_number] accepts exactly the strings
    ["+7 (DDD) DDD-DD-DD"], where every [D] is a Unicode decimal digit (not
    only ['0'] to ['9']), possibly followed by one ['\n']. *)
Theorem validate_phone_number_iff : forall s,
  validate_phone_number s = true <->
  exists a b c d t,
    List.length a = 3 /\ List.length b = 3 /\ List.length c = 2 /\ List.length d = 2 /\
    forallb is_decimal (a ++ b ++ c ++ d) = true /\ (t = [] \/ t = [LF]) /\
    s = phone_text a b c d ++ t.
Proof.
  intros s. unfold validate_phone_number, re_match.
  destruct (seq_match phone_pattern 0 s) as [r|] eqn:E.
  - split; [|reflexivity]. intros _.
    destruct (proj1 (phone_match s r) E) as [a [b [c [d [t H]]]]].
    exists a, b, c, d, t. tauto.
  - split; [discriminate|]. intros [a [b [c [d [t [Ha [Hb [Hc [Hd [Hdig [Ht Hs]]]]]]]]]]].
    assert (Hm : seq_match phone_pattern 0 s = Some (18, t))
      by (apply phone_match; exists a, b, c, d, t; tauto).
    congruence.
Qed.

Lemma phone_no_newline : forall s,
  ~ In LF s -> validate_phone_number s = phone_fullmatch s.
Proof.
  intros s Hs. unfold validate_phone_number, re_match, phone_fullmatch.
  destruct (seq_match phone_pattern 0 s) as [r|] eqn:E; [|reflexivity].
  destruct (proj1 (phone_match s r) E) as [a [b [c [d [t [_ [_ [_ [_ [_ [Ht [Hs' ->]]]]]]]]]]]].
  destruct Ht as [-> | ->]; [reflexivity|].
  exfalso. apply Hs. rewrite Hs'. apply in_or_app. right. left. reflexivity.
Qed.

(** For a string without a newline, as [input()] returns, the check is a
    match of the whole string. *)
Theorem validate_phone_number_no_newline : forall s,
  ~ In LF s -> validate_phone_number s = phone_fullmatch s.
Proof. exact phone_no_newline. Qed.

Lemma validate_phone_number_no_newline_witness :
  ~ In LF (utf8 "+7 (123) 456-78-90") /\
  validate_phone_number (utf8 "+7 (123) 456-78-90") = phone_fullmatch (utf8 "+7 (123) 456-78-90").
Proof.
  assert (H : ~ In LF (utf8 "+7 (123) 456-78-90")) by (simpl; intuition discriminate).
  split; [exact H|]. apply (validate_phone_number_no_newline _ H).
Defined.

(** *** [validate_string_input] *)

Lemma lstrip_idem : forall s, lstrip (lstrip s) = lstrip s.
Proof.
  induction s as [|c s IH]; [reflexivity|]. simpl.
  destruct (py_isspace c) eqn:E; [exact IH|]. simpl. rewrite E. reflexivity.
Qed.

Lemma lstrip_head : forall s,
  lstrip s = [] \/ exists c s', lstrip s = c :: s' /\ py_isspace c = false.
Proof.
  induction s as [|c s IH]; [left; reflexivity|]. simpl.
  destruct (py_isspace c) eqn:E; [exact IH|]. right. eauto.
Qed.

Lemma lstrip_snoc : forall x c, py_isspace c = false -> exists w, lstrip (x ++ [c]) = w ++ [c].
Proof.
  induction x as [|a x IH]; intros c Hc.
  - exists []. simpl. rewrite Hc. reflexivity.
  - simpl. destruct (py_isspace a); [apply IH; exact Hc|]. exists (a :: x). reflexivity.
Qed.

Lemma strip_idem : forall s, strip (strip s) = strip s.
Proof.
  intros s. unfold strip.
  assert (H : lstrip (rstrip (lstrip s)) = rstrip (lstrip s)).
  { destruct (lstrip_head s) as [-> | [c [u [-> Hc]]]]; [reflexivity|].
    unfold rstrip. simpl rev.
    destruct (lstrip_snoc (rev u) c Hc) as [w ->].
    rewrite rev_app_distr. simpl. rewrite Hc. reflexivity. }
  rewrite H. unfold rstrip. rewrite rev_involutive, lstrip_idem. reflexivity.
Qed.

(** The value [validate_string_input] returns is not empty, has no
    whitespace at either end, and passes the check again unchanged. *)
Theorem validate_string_input_idem : forall s field_name v field_name',
  validate_string_input s field_name = Ok v ->
  v <> [] /\ strip v = v /\ validate_string_input v field_name' = Ok v.
Proof.
  intros s n v n' H. unfold validate_string_input in *.
  destruct (is_empty (strip s)) eqn:E; simpl in H; [discriminate|]. inv H.
  assert (Hne : strip s <> []) by (intros Hx; rewrite Hx in E; discriminate).
  split; [exact Hne|]. rewrite strip_idem. split; [reflexivity|]. rewrite E. reflexivity.
Qed.

Lemma validate_string_input_idem_witness :
  validate_string_input (utf8 "  Ivanov ") k_LastName = Ok (utf8 "Ivanov") /\
  (utf8 "Ivanov" <> [] /\ strip (utf8 "Ivanov") = utf8 "Ivanov" /\
   validate_string_input (utf8 "Ivanov") k_Organization = Ok (utf8 "Ivanov")).
Proof.
  assert (H : validate_string_input (utf8 "  Ivanov ") k_LastName = Ok (utf8 "Ivanov"))
    by reflexivity.
  split; [exact H|]. apply (validate_string_input_idem _ _ _ k_Organization H).
Defined.

(** *** [input_contact_data] *)

Ltac io_unfold :=
  cbv beta iota zeta delta [input_contact_data add_entry_io try_value_error io_bind input io_lift io_ret].

Lemma validate_string_input_cases : forall s n,
  (validate_string_input s n = Ok (strip s) /\ strip s <> []) \/
  (strip s = [] /\ exists msg, validate_string_input s n = Err (ValueError msg)).
Proof.
  intros s n. unfold validate_string_input.
  destruct (strip s) as [|c u] eqn:E; simpl.
  - right. eauto.
  - left. split; [reflexivity | discriminate].
Qed.

Lemma read_phone_spec : forall inp,
  match read_phone inp with
  | (inl l, r) => validate_phone_number l = true /\ exists pre, inp = pre ++ l :: r
  | (inr e, r) => e = EOFError /\ r = []
  end.
Proof.
  induction inp as [|l inp IH]; simpl; auto.
  destruct (validate_phone_number l) eqn:E.
  - split; [exact E|]. exists []. reflexivity.
  - destruct (read_phone inp) as [[x|e] r]; [|exact IH].
    destruct IH as [Hv [pre ->]]. split; [exact Hv|]. exists (l :: pre). reflexivity.
Qed.

Lemma input_contact_data_cases : forall inp,
  input_contact_data inp = (inr EOFError, []) \/
  (exists rest, input_contact_data inp = (inl [], rest)) \/
  exists l1 l2 l3 l4 r1 wp r2 pp r3,
    inp = l1 :: l2 :: l3 :: l4 :: r1 /\ Forall (fun l => strip l <> []) [l1; l2; l3; l4] /\
    read_phone r1 = (inl wp, r2) /\ read_phone r2 = (inl pp, r3) /\
    input_contact_data inp = (inl (contact_dict (strip l1) (strip l2) (strip l3) (strip l4) wp pp), r3).
Proof.
  intros inp.
  destruct inp as [|l1 inp]; [left; reflexivity|].
  destruct (validate_string_input_cases l1 k_LastName) as [[V1 N1] | [_ [m1 V1]]];
    [|right; left; exists inp; io_unfold; rewrite V1; reflexivity].
  destruct inp as [|l2 inp]; [left; io_unfold; rewrite V1; reflexivity|].
  destruct (validate_string_input_cases l2 k_FirstName) as [[V2 N2] | [_ [m2 V2]]];
    [|right; left; exists inp; io_unfold; rewrite V1, V2; reflexivity].
  destruct inp as [|l3 inp]; [left; io_unfold; rewrite V1, V2; reflexivity|].
  destruct (validate_string_input_cases l3 k_Patronymic) as [[V3 N3] | [_ [m3 V3]]];
    [|right; left; exists inp; io_unfold; rewrite V1, V2, V3; reflexivity].
  destruct inp as [|l4 inp]; [left; io_unfold; rewrite V1, V2, V3; reflexivity|].
  destruct (validate_string_input_cases l4 k_Organization) as [[V4 N4] | [_ [m4 V4]]];
    [|right; left; exists inp; io_unfold; rewrite V1, V2, V3, V4; reflexivity].
  pose proof (read_phone_spec inp) as S1.
  destruct (read_phone inp) as [[wp|e1] r2] eqn:P1;
    [|destruct S1 as [-> ->]; left; io_unfold; rewrite V1, V2, V3, V4, P1; reflexivity].
  pose proof (read_phone_spec r2) as S2.
  destruct (read_phone r2) as [[pp|e2] r3] eqn:P2;
    [|destruct S2 as [-> ->]; left; io_unfold; rewrite V1, V2, V3, V4, P1, P2; reflexivity].
  right; right. exists l1, l2, l3, l4, inp, wp, r2, pp, r3.
  split; [reflexivity|]. split; [repeat constructor; assumption|].
  split; [exact P1|]. split; [exact P2|].
  io_unfold. rewrite V1, V2, V3, V4, P1, P2. reflexivity.
Qed.

(** On input lines without a newline, [input_contact_data()] raises
    [EOFError] having read the whole input, or returns [{}] (a blank name
    field), or returns the dict of the six fields, whose four names are
    non-empty and stripped and whose two phone numbers match the whole
    pattern; no other exception leaves it. *)
Theorem input_contact_data_result : forall inp,
  Forall (fun l => ~ In LF l) inp ->
  input_contact_data inp = (inr EOFError, []) \/
  (exists rest, input_contact_data inp = (inl [], rest)) \/
  exists v1 v2 v3 v4 wp pp rest,
    input_contact_data inp = (inl (contact_dict v1 v2 v3 v4 wp pp), rest) /\
    Forall (fun v => v <> [] /\ strip v = v) [v1; v2; v3; v4] /\
    phone_fullmatch wp = true /\ phone_fullmatch pp = true.
Proof.
  intros inp Hinp.
  destruct (input_contact_data_cases inp) as [H | [H | H]]; [left; exact H | right; left; exact H|].
  right; right.
  destruct H as [l1 [l2 [l3 [l4 [r1 [wp [r2 [pp [r3 [-> [Hne [P1 [P2 E]]]]]]]]]]]]].
  exists (strip l1), (strip l2), (strip l3), (strip l4), wp, pp, r3.
  split; [exact E|].
  pose proof (read_phone_spec r1) as S1. rewrite P1 in S1. destruct S1 as [V1 [pre1 Hr1]].
  pose proof (read_phone_spec r2) as S2. rewrite P2 in S2. destruct S2 as [V2 [pre2 Hr2]].
  do 4 apply Forall_inv_tail in Hinp.
  rewrite Hr1 in Hinp. apply Forall_app in Hinp as [_ Hr].
  pose proof (Forall_inv Hr) as Hwp. apply Forall_inv_tail in Hr.
  rewrite Hr2 in Hr. apply Forall_app in Hr as [_ Hr].
  pose proof (Forall_inv Hr) as Hpp. clear Hr Hr1 Hr2.
  split; [|split].
  - repeat match goal with H : Forall _ (_ :: _) |- _ => inv H end.
    repeat constructor; auto; apply strip_idem.
  - rewrite <- phone_no_newline by exact Hwp. exact V1.
  - rewrite <- phone_no_newline by exact Hpp. exact V2.
Qed.

Lemma input_contact_data_result_witness :
  let inp := map utf8 ["Ivanov "; "Ivan"; "Ivanovich"; " Org"; "123";
                       "+7 (123) 456-78-90"; "+7 (999) 000-11-22"]%string in
  Forall (fun l => ~ In LF l) inp /\
  (input_contact_data inp = (inr EOFError, []) \/
   (exists rest, input_contact_data inp = (inl [], rest)) \/
   exists v1 v2 v3 v4 wp pp rest,
     input_contact_data inp = (inl (contact_dict v1 v2 v3 v4 wp pp), rest) /\
     Forall (fun v => v <> [] /\ strip v = v) [v1; v2; v3; v4] /\
     phone_fullmatch wp = true /\ phone_fullmatch pp = true).
Proof.
  intros inp.
  assert (H : Forall (fun l => ~ In LF l) inp)
    by (repeat constructor; simpl; intuition discriminate).
  split; [exact H|]. apply (input_contact_data_result inp H).
Defined.

(** A blank answer to one of the four name questions, after non-blank
    answers to the ones before it, makes [input_contact_data()] return
    [{}] at once, without reading further lines. *)
Theorem input_contact_data_blank : forall pre l rest,
  (List.length pre < 4)%nat ->
  Forall (fun x => strip x <> []) pre ->
  strip l = [] ->
  input_contact_data (pre ++ l :: rest) = (inl [], rest).
Proof.
  intros pre l rest Hlen Hpre Hl.
  assert (B : forall n, exists msg, validate_string_input l n = Err (ValueError msg))
    by (intros n; unfold validate_string_input; rewrite Hl; eexists; reflexivity).
  assert (G : forall x n, strip x <> [] -> validate_string_input x n = Ok (strip x))
    by (intros x n Hx; destruct (validate_string_input_cases x n) as [[V _] | [Hb _]];
        [exact V | contradiction]).
  destruct pre as [|x1 [|x2 [|x3 [|x4 pre]]]]; [| | | | simpl in Hlen; lia];
    repeat match goal with H : Forall _ (_ :: _) |- _ => inv H end.
  - destruct (B k_LastName) as [m V]. io_unfold. cbn [app]. rewrite V. reflexivity.
  - destruct (B k_FirstName) as [m V]. io_unfold. cbn [app].
    rewrite (G x1) by assumption. rewrite V. reflexivity.
  - destruct (B k_Patronymic) as [m V]. io_unfold. cbn [app].
    rewrite (G x1), (G x2) by assumption. rewrite V. reflexivity.
  - destruct (B k_Organization) as [m V]. io_unfold. cbn [app].
    rewrite (G x1), (G x2), (G x3) by assumption. rewrite V. reflexivity.
Qed.

Lemma input_contact_data_blank_witness :
  (List.length [utf8 "Ivanov"] < 4)%nat /\
  Forall (fun x => strip x <> []) [utf8 "Ivanov"] /\
  strip (utf8 "   ") = [] /\
  input_contact_data ([utf8 "Ivanov"] ++ utf8 "   " :: [utf8 "Ivan"]) = (inl [], [utf8 "Ivan"]).
Proof.
  assert (H1 : (List.length [utf8 "Ivanov"] < 4)%nat) by (simpl; lia).
  assert (H2 : Forall (fun x => strip x <> []) [utf8 "Ivanov"])
    by (repeat constructor; vm_compute; discriminate).
  assert (H3 : strip (utf8 "   ") = []) by reflexivity.
  split; [exact H1|]. split; [exact H2|]. split; [exact H3|].
  apply (input_contact_data_blank _ _ _ H1 H2 H3).
Defined.

(** *** [add_entry] with its console input *)

Lemma keys_ok_contact_dict : forall v1 v2 v3 v4 wp pp, keys_ok (contact_dict v1 v2 v3 v4 wp pp).
Proof. intros. reflexivity. Qed.

Lemma existsb_lstrip : forall p s, existsb p s = false -> existsb p (lstrip s) = false.
Proof.
  intros p. induction s as [|c s IH]; intros H; [reflexivity|].
  simpl in H. apply orb_false_iff in H as [Hc Hs]. simpl.
  destruct (py_isspace c); [apply IH; exact Hs|]. simpl. rewrite Hc. exact Hs.
Qed.

Lemma existsb_rev : forall {A} (p : A -> bool) l, existsb p (rev l) = existsb p l.
Proof.
  intros A p. induction l as [|x l IH]; [reflexivity|].
  simpl. rewrite existsb_app, IH. simpl. rewrite orb_false_r. apply orb_comm.
Qed.

Lemma utf8_encodable_strip : forall s, utf8_encodable s = true -> utf8_encodable (strip s) = true.
Proof.
  unfold utf8_encodable, strip, rstrip. intros s H. apply negb_true_iff in H.
  apply negb_true_iff. rewrite existsb_rev. apply existsb_lstrip.
  rewrite existsb_rev. apply existsb_lstrip. exact H.
Qed.

Lemma input_contact_data_encodable : forall inp cd rest,
  Forall (fun l => utf8_encodable l = true) inp ->
  input_contact_data inp = (inl cd, rest) -> entry_encodable cd.
Proof.
  intros inp cd rest Hinp Hcd.
  destruct (input_contact_data_cases inp) as [E | [[r E] | E]].
  - congruence.
  - rewrite E in Hcd. inv Hcd. reflexivity.
  - destruct E as [l1 [l2 [l3 [l4 [r1 [wp [r2 [pp [r3 [-> [_ [P1 [P2 E]]]]]]]]]]]]].
    rewrite E in Hcd. inv Hcd.
    pose proof (read_phone_spec r1) as S1. rewrite P1 in S1. destruct S1 as [_ [pre1 Hr1]].
    pose proof (read_phone_spec r2) as S2. rewrite P2 in S2. destruct S2 as [_ [pre2 Hr2]].
    rewrite Forall_forall in Hinp.
    assert (A : forall x, In x r1 -> utf8_encodable x = true)
      by (intros x Hx; apply Hinp; simpl; auto 6).
    assert (I1 : In wp r1) by (rewrite Hr1; apply in_or_app; right; left; reflexivity).
    assert (I2 : In pp r1)
      by (rewrite Hr1; apply in_or_app; right; right; rewrite Hr2; apply in_or_app; right; left; reflexivity).
    unfold entry_encodable, contact_dict. cbn [dict_values map snd forallb value_encodable].
    rewrite !utf8_encodable_strip by (apply Hinp; simpl; auto 6).
    rewrite (A wp I1), (A pp I2). reflexivity.
Qed.

(** On a phonebook whose entries have only header keys and no lone
    surrogate, and on input lines without a lone surrogate, [add_entry]
    with its console input raises [EOFError] at the end of the input, or
    leaves the phonebook as it is (a blank name), or appends the new
    contact, renumbers the IDs from 1 and saves: it never raises the
    [ValueError] of the save. *)
Theorem add_entry_io_result : forall s inp,
  Forall keys_ok (phonebook s) -> Forall entry_encodable (phonebook s) ->
  Forall (fun l => utf8_encodable l = true) inp ->
  add_entry_io s inp = (inr EOFError, []) \/
  (exists rest, add_entry_io s inp = (inl (s, Done), rest)) \/
  exists cd rest,
    input_contact_data inp = (inl cd, rest) /\ cd <> [] /\ keys_ok cd /\
    add_entry_io s inp =
      (inl (mkStore (set_ids 1 (phonebook s ++ [cd]))
                    (Some (List.concat (map csv_writerow
                       (fieldnames :: map row_of (set_ids 1 (phonebook s ++ [cd])))))),
            Done), rest).
Proof.
  intros s inp Hs Hse Hinp.
  assert (U : add_entry_io s inp =
              match input_contact_data inp with
              | (inl cd, r) => (inl (add_entry s cd), r)
              | (inr e, r) => (inr e, r)
              end) by reflexivity.
  destruct (input_contact_data_cases inp) as [E | [[rest E] | E]].
  - left. rewrite U, E. reflexivity.
  - right; left. exists rest. rewrite U, E. reflexivity.
  - right; right.
    destruct E as [l1 [l2 [l3 [l4 [r1 [wp [r2 [pp [r3 [_ [_ [_ [_ E]]]]]]]]]]]]].
    set (cd := contact_dict (strip l1) (strip l2) (strip l3) (strip l4) wp pp) in E.
    exists cd, r3. split; [exact E|]. split; [discriminate|].
    split; [apply keys_ok_contact_dict|].
    rewrite U, E. unfold add_entry. simpl negb. cbv iota.
    unfold save_store, save_phonebook. rewrite save_rows_ok.
    + cbn [map List.concat]. rewrite map_map. reflexivity.
    + apply Forall_app. split; [exact Hs|]. constructor; [apply keys_ok_contact_dict | constructor].
    + apply Forall_app. split; [exact Hse|]. constructor; [|constructor].
      eapply input_contact_data_encodable; eassumption.
Qed.

Lemma add_entry_io_result_witness :
  let s := mkStore [c_ivanov] None in
  let inp := map utf8 ["Petrov"; "Petr"; "Petrovich"; "Romashka";
                       "+7 (495) 111-22-33"; "+7 (916) 444-55-66"]%string in
  Forall keys_ok (phonebook s) /\ Forall entry_encodable (phonebook s) /\
  Forall (fun l => utf8_encodable l = true) inp /\
  (add_entry_io s inp = (inr EOFError, []) \/
   (exists rest, add_entry_io s inp = (inl (s, Done), rest)) \/
   exists cd rest,
     input_contact_data inp = (inl cd, rest) /\ cd <> [] /\ keys_ok cd /\
     add_entry_io s inp =
       (inl (mkStore (set_ids 1 (phonebook s ++ [cd]))
                     (Some (List.concat (map csv_writerow
                        (fieldnames :: map row_of (set_ids 1 (phonebook s ++ [cd])))))),
             Done), rest)).
Proof.
  intros s inp.
  assert (H : Forall keys_ok (phonebook s)) by (repeat constructor).
  assert (H1 : Forall entry_encodable (phonebook s)) by (repeat constructor).
  assert (H2 : Forall (fun l => utf8_encodable l = true) inp) by (repeat constructor).
  split; [exact H|]. split; [exact H1|]. split; [exact H2|].
  apply (add_entry_io_result s inp H H1 H2).
Defined.

(** *** [search_entries] on string values *)

Lemma any_contains_str : forall lower t vs,
  forallb is_str vs = true ->
  any_contains lower t vs =
    Ok (existsb (fun v => match v with VStr s => is_substring t (lower s) | _ => false end) vs).
Proof.
  intros lower t. induction vs as [|v vs IH]; intros H; [reflexivity|].
  simpl in H. apply andb_true_iff in H as [Hv H].
  destruct v as [x| | |]; try discriminate. simpl.
  destruct (is_substring t (lower x)); [reflexivity|]. apply IH. exact H.
Qed.

(** When every value of the phonebook is a string (as after loading), a
    search with a term that is not blank once lowercased and stripped
    returns, in phonebook order, exactly the entries one of whose
    lowercased values contains the lowercased term. *)
Theorem search_entries_filter : forall lower line pb,
  strip (lower line) <> [] ->
  Forall (fun d => all_str d = true) pb ->
  search_entries lower line pb = Ok (filter (entry_matches lower (lower line)) pb).
Proof.
  intros lower line pb Hline Hpb. unfold search_entries.
  destruct (is_empty (strip (lower line))) eqn:E.
  - destruct (strip (lower line)); [contradiction | discriminate].
  - clear E Hline. induction Hpb as [|d pb Hd Hpb IH]; [reflexivity|].
    cbn [filter_entries filter]. rewrite any_contains_str by exact Hd.
    unfold entry_matches at 1.
    destruct (existsb _ (dict_values d)); [|exact IH]. rewrite IH. reflexivity.
Qed.

Lemma search_entries_filter_witness :
  strip (utf8 "ivan") <> [] /\
  Forall (fun d => all_str d = true) [c_ivanov; c_petrov] /\
  search_entries (fun x => x) (utf8 "ivan") [c_ivanov; c_petrov] =
    Ok (filter (entry_matches (fun x => x) (utf8 "ivan")) [c_ivanov; c_petrov]).
Proof.
  assert (H1 : strip (utf8 "ivan") <> []) by discriminate.
  assert (H2 : Forall (fun d => all_str d = true) [c_ivanov; c_petrov]) by (repeat constructor).
  split; [exact H1|]. split; [exact H2|].
  apply (search_entries_filter (fun x => x) (utf8 "ivan") _ H1 H2).
Defined.

(** On a phonebook whose entries have only header keys and no value with
    a lone surrogate, an index in range and console lines free of lone
    surrogates, [edit_entry] with its console input raises [EOFError] at
    the end of the input, or leaves the phonebook as it is (a blank name),
    or updates the entry with the new contact, renumbers the IDs from 1 and
    saves: its [except ValueError] is never reached. *)
Theorem edit_entry_io_result : forall s entry_idx inp,
  (1 <= entry_idx <= Z.of_nat (List.length (phonebook s)))%Z ->
  Forall keys_ok (phonebook s) ->
  Forall entry_encodable (phonebook s) ->
  Forall (fun l => utf8_encodable l = true) inp ->
  edit_entry_io s entry_idx inp = (inr EOFError, []) \/
  (exists rest, edit_entry_io s entry_idx inp = (inl (s, Done), rest)) \/
  exists cd rest e,
    input_contact_data inp = (inl cd, rest) /\ cd <> [] /\
    nth_error (phonebook s) (Z.to_nat (entry_idx - 1)) = Some e /\
    let pb' := list_set (phonebook s) (Z.to_nat (entry_idx - 1)) (dict_update e cd) in
    edit_entry_io s entry_idx inp =
      (inl (mkStore (set_ids 1 pb')
                    (Some (List.concat (map csv_writerow (fieldnames :: map row_of (set_ids 1 pb'))))),
            Done), rest).
Proof.
  intros s idx inp Hidx Hs Hse Hinp.
  assert (R : (0 <=? idx - 1)%Z && (idx - 1 <? Z.of_nat (List.length (phonebook s)))%Z = true)
    by (apply andb_true_iff; split; [apply Z.leb_le | apply Z.ltb_lt]; lia).
  destruct (nth_error (phonebook s) (Z.to_nat (idx - 1))) as [e|] eqn:Hn.
  2:{ apply nth_error_None in Hn. lia. }
  assert (U : edit_entry_io s idx inp =
              match input_contact_data inp with
              | (inl cd, r) => (inl (edit_entry s idx cd), r)
              | (inr x, r) => (inr x, r)
              end) by (unfold edit_entry_io; rewrite R; reflexivity).
  destruct (input_contact_data_cases inp) as [E | [[rest E] | E]].
  - left. rewrite U, E. reflexivity.
  - right; left. exists rest. rewrite U, E. unfold edit_entry. rewrite R, Hn. reflexivity.
  - right; right.
    destruct E as [l1 [l2 [l3 [l4 [r1 [wp [r2 [pp [r3 [_ [_ [_ [_ E]]]]]]]]]]]]].
    set (cd := contact_dict (strip l1) (strip l2) (strip l3) (strip l4) wp pp) in E.
    exists cd, r3, e. split; [exact E|]. split; [discriminate|]. split; [reflexivity|].
    intros pb'. rewrite U, E. unfold edit_entry. rewrite R, Hn. simpl negb. cbv iota.
    unfold save_store, save_phonebook. rewrite save_rows_ok.
    + cbn [map List.concat]. rewrite map_map. reflexivity.
    + apply Forall_list_set; [exact Hs|]. apply keys_ok_update; [|apply keys_ok_contact_dict].
      rewrite Forall_forall in Hs. apply Hs. eapply nth_error_In. exact Hn.
    + apply Forall_list_set; [exact Hse|]. apply entry_encodable_update.
      * rewrite Forall_forall in Hse. apply Hse. eapply nth_error_In. exact Hn.
      * eapply input_contact_data_encodable; eassumption.
Qed.

Lemma edit_entry_io_result_witness :
  let s := mkStore [c_ivanov; c_petrov] None in
  let inp := map utf8 ["Sidorov"; "Sidor"; "Sidorovich"; "Vasilek";
                       "+7 (495) 111-22-33"; "+7 (916) 444-55-66"]%string in
  (1 <= 2 <= Z.of_nat (List.length (phonebook s)))%Z /\
  Forall keys_ok (phonebook s) /\
  Forall entry_encodable (phonebook s) /\
  Forall (fun l => utf8_encodable l = true) inp /\
  (edit_entry_io s 2 inp = (inr EOFError, []) \/
   (exists rest, edit_entry_io s 2 inp = (inl (s, Done), rest)) \/
   exists cd rest e,
     input_contact_data inp = (inl cd, rest) /\ cd <> [] /\
     nth_error (phonebook s) (Z.to_nat (2 - 1)) = Some e /\
     let pb' := list_set (phonebook s) (Z.to_nat (2 - 1)) (dict_update e cd) in
     edit_entry_io s 2 inp =
       (inl (mkStore (set_ids 1 pb')
                     (Some (List.concat (map csv_writerow (fieldnames :: map row_of (set_ids 1 pb'))))),
             Done), rest)).
Proof.
  intros s inp.
  assert (H1 : (1 <= 2 <= Z.of_nat (List.length (phonebook s)))%Z) by (simpl; lia).
  assert (H2 : Forall keys_ok (phonebook s)) by (repeat constructor).
  assert (H3 : Forall entry_encodable (phonebook s)) by (repeat constructor).
  assert (H4 : Forall (fun l => utf8_encodable l = true) inp) by (repeat constructor).
  split; [exact H1|]. split; [exact H2|]. split; [exact H3|]. split; [exact H4|].
  apply (edit_entry_io_result s 2 inp H1 H2 H3 H4).
Defined.
